(** * SavingThrow: a shallow embedding of [SavingThrow.py]

    The script is Python 2 ([urllib2], [e[0]] on exceptions).  Strings are
    byte strings, modelled as [string]; Python sets of paths are [gset string];
    the file system, the two output channels and the logger's verbosity are an
    explicit [state]; everything the script obtains from outside (network
    answers, glob results, the clock, refusals of the operating system, the
    iteration order of a hash set) is a field of a [world].  Exceptions are a
    result type: every effectful function returns the new state together with
    [Ok v] or [Raise e]. *)

From Stdlib Require Import Ascii String.
From stdpp Require Import base gmap sets list strings pretty.

Local Open Scope string_scope.
Local Open Scope list_scope.

(** ** Byte-string helpers of the Python runtime *)

Module Py.

(** [s.split(sep)] for a one-character separator: never the empty list. *)
Fixpoint split (sep : ascii) (s : string) : list string :=
  match s with
  | EmptyString => [""]
  | String c s' =>
      if decide (c = sep) then "" :: split sep s'
      else match split sep s' with
           | piece :: pieces => String c piece :: pieces
           | [] => [String c ""]
           end
  end.

Definition newline : ascii := Ascii.ascii_of_nat 10.
Definition slash : ascii := "/"%char.

(** [s.startswith(c)] and [s.endswith(c)] for a single character. *)
Definition startswith (c : ascii) (s : string) : bool :=
  match s with
  | String c' _ => bool_decide (c' = c)
  | EmptyString => false
  end.

Fixpoint endswith (c : ascii) (s : string) : bool :=
  match s with
  | EmptyString => false
  | String c' EmptyString => bool_decide (c' = c)
  | String _ s' => endswith c s'
  end.

(** [s.rstrip(c)]: drop every trailing [c]. *)
Fixpoint rstrip (c : ascii) (s : string) : string :=
  match s with
  | EmptyString => ""
  | String c' s' =>
      match rstrip c s' with
      | EmptyString => if decide (c' = c) then "" else String c' ""
      | rest => String c' rest
      end
  end.

(** [posixpath.basename(p)] is [p[p.rfind('/')+1:]], the last piece of
    [p] cut at slashes. *)
Definition basename (p : string) : string := List.last (split slash p) "".

(** [posixpath.join(a, b)]. *)
Definition join (a b : string) : string :=
  if startswith slash b then b
  else if bool_decide (a = "") || endswith slash a then a +:+ b
  else a +:+ "/" +:+ b.

(** ["%d" % n] for a natural number. *)
Definition str_of_nat (n : nat) : string := pretty n.
Definition str_of_Z (n : Z) : string := pretty n.

(** [needle in hay] *)
Fixpoint contains (needle hay : string) : bool :=
  String.prefix needle hay ||
  match hay with
  | String _ hay' => contains needle hay'
  | EmptyString => false
  end.

(** [p] is [d] itself or lies below the directory [d]. *)
Definition under (d p : string) : bool :=
  bool_decide (p = d) || String.prefix (d +:+ "/") p.

(** Broken-down local time, as [time.localtime()] returns it. *)
Record tm := { tm_year : nat; tm_mon : nat; tm_mday : nat;
               tm_hour : nat; tm_min : nat; tm_sec : nat }.

(** C's [%02d]. *)
Definition zero_pad2 (n : nat) : string :=
  let s := str_of_nat n in
  if (String.length s <? 2)%nat then "0" +:+ s else s.

(** One conversion of [strftime]; the letters the script does not use
    are copied through. *)
Definition directive (c : ascii) (t : tm) : string :=
  if decide (c = "Y"%char) then str_of_nat (tm_year t)
  else if decide (c = "m"%char) then zero_pad2 (tm_mon t)
  else if decide (c = "d"%char) then zero_pad2 (tm_mday t)
  else if decide (c = "H"%char) then zero_pad2 (tm_hour t)
  else if decide (c = "M"%char) then zero_pad2 (tm_min t)
  else if decide (c = "S"%char) then zero_pad2 (tm_sec t)
  else String "%"%char (String c "").

(** [time.strftime(format)] at the local time [t]. *)
Fixpoint strftime (format : string) (t : tm) : string :=
  match format with
  | EmptyString => ""
  | String c rest =>
      if decide (c = "%"%char) then
        match rest with
        | String d rest' => directive d t +:+ strftime rest' t
        | EmptyString => "%"
        end
      else String c (strftime rest t)
  end.

End Py.


(** ** The fragment of Python's [re] the script uses

    Patterns are sequences of literal characters and [.], each optionally
    followed by [*], with parentheses that open and close a capturing group.
    Matching is the backtracking search of [re]: [*] is greedy (longest
    repetition first, then shorter ones), [.] accepts every character but
    a newline, and [search] tries the start positions from left to right. *)

Module Re.

Inductive atom := Lit (c : ascii) | AnyChar.
Inductive item := One (a : atom) | Many (a : atom) | GroupOpen | GroupClose.

Definition atom_of (c : ascii) : atom :=
  if decide (c = "."%char) then AnyChar else Lit c.

(** [re.compile(pattern)] *)
Fixpoint compile (pattern : string) : list item :=
  match pattern with
  | EmptyString => []
  | String c rest =>
      if decide (c = "("%char) then GroupOpen :: compile rest
      else if decide (c = ")"%char) then GroupClose :: compile rest
      else match rest with
           | String c' rest' =>
               if decide (c' = "*"%char) then Many (atom_of c) :: compile rest'
               else One (atom_of c) :: compile rest
           | EmptyString => One (atom_of c) :: compile rest
           end
  end.

Definition accepts (a : atom) (c : ascii) : bool :=
  match a with
  | Lit c' => bool_decide (c = c')
  | AnyChar => negb (bool_decide (c = Py.newline))
  end.

(** The subject is scanned as a list of characters.  A match in
    progress records where group 1 was opened (the rest of the subject at
    that point) and what it captured once closed. *)
Record captures := { opened : option (list ascii); group1 : option (list ascii) }.

Definition no_captures : captures := {| opened := None; group1 := None |}.

Definition open_group (s : list ascii) (cs : captures) : captures :=
  {| opened := Some s; group1 := group1 cs |}.

Definition close_group (s : list ascii) (cs : captures) : captures :=
  {| opened := None;
     group1 := match opened cs with
               | Some from => Some (take (length from - length s) from)
               | None => group1 cs
               end |}.

(** [a*] followed by the rest of the pattern [k]: take one more
    character when [a] accepts it and come back to [k] here when the
    longer attempts fail. *)
Fixpoint repeat_greedy (a : atom) (k : list ascii → option captures)
    (s : list ascii) : option captures :=
  match s with
  | c :: s' =>
      if accepts a c then
        match repeat_greedy a k s' with
        | Some m => Some m
        | None => k s
        end
      else k s
  | [] => k s
  end.

(** Match the pattern at the start of [s]. *)
Fixpoint match_at (re : list item) (cs : captures) (s : list ascii)
    : option captures :=
  match re with
  | [] => Some cs
  | One a :: re' =>
      match s with
      | c :: s' => if accepts a c then match_at re' cs s' else None
      | [] => None
      end
  | Many a :: re' => repeat_greedy a (match_at re' cs) s
  | GroupOpen :: re' => match_at re' (open_group s cs) s
  | GroupClose :: re' => match_at re' (close_group s cs) s
  end.

(** The match at the leftmost start position that has one. *)
Fixpoint search_from (re : list item) (s : list ascii) : option captures :=
  match match_at re no_captures s with
  | Some m => Some m
  | None =>
      match s with
      | _ :: s' => search_from re s'
      | [] => None
      end
  end.

(** [re.search(re, s)] *)
Definition search (re : list item) (s : string) : option captures :=
  search_from re (list_ascii_of_string s).

(** [m.group(1)]; Python's [None] for a group that took no part. *)
Definition group_1 (m : captures) : option string :=
  string_of_list_ascii <$> group1 m.

End Re.

(** ** Exceptions, the outside world, the program state *)

(** The exception classes that occur.  In Python 2 [IOError], [OSError] and
    [shutil.Error] are three different subclasses of [EnvironmentError]:
    an [except OSError] clause catches only the second.  [urllib2.URLError]
    is a subclass of [IOError]. *)
Inductive exc :=
  | OSError (errno : Z) (filename : string)
  | IOError (errno : Z) (filename : string)
  | URLError (reason : string)
  | ShutilError (args : list string)
  | UnboundLocalError (name : string)
  | SystemExit (code : Z)
  | OtherError (description : string).

Definition is_OSError (e : exc) : bool :=
  match e with OSError _ _ => true | _ => false end.
Definition is_IOError (e : exc) : bool :=
  match e with IOError _ _ | URLError _ => true | _ => false end.
Definition is_URLError (e : exc) : bool :=
  match e with URLError _ => true | _ => false end.

(** [e[0]]: the first of the exception's arguments, for the classes that
    carry an errno there. *)
Definition exc_item0 (e : exc) : option Z :=
  match e with
  | OSError n _ | IOError n _ | SystemExit n => Some n
  | _ => None
  end.

(** [e.message]: the exceptions the script formats this way are built with
    two arguments ([IOError(errno, strerror)]) or by a constructor that
    sets no message ([URLError]); Python 2 leaves [message] empty then. *)
Definition exc_message (e : exc) : string :=
  match e with
  | OtherError d => d
  | _ => ""
  end.

(** How the network can fail a download: the errors [urllib2] reports as
    [URLError] (no route, DNS, refused connection, HTTP status), and the
    rest (a timeout while reading the body, a malformed URL). *)
Inductive net_failure :=
  | Unreachable (reason : string)
  | Broken (description : string).

(** The requests to the operating system that it may refuse. *)
Inductive syscall :=
  | Open_r (path : string)
  | Open_w (path : string)
  | Mkdir (path : string)
  | Rename (src dst : string)
  | Unlink (path : string).

Record world := {
  (** [urllib2.urlopen(source).read()]: the body, or what it raises *)
  urlopen : string → net_failure + string;
  (** [glob.glob(pattern)] on the file system as the run finds it *)
  glob_glob : string → list string;
  (** the local time of the run *)
  localtime : Py.tm;
  (** a request the operating system refuses, with its errno
      (permissions, devices, I/O errors) *)
  refused : syscall → option Z;
  (** libc's message for an errno *)
  strerror : Z → string;
  (** the order in which a set of strings is iterated *)
  iteration : gset string → list string;
}.

(** A hash set is iterated in some order without repetition. *)
Definition iteration_ok (w : world) : Prop :=
  ∀ X : gset string, iteration w X ≡ₚ elements X.

(** ["%s" % e] for the environment errors. *)
Definition exc_str (w : world) (e : exc) : string :=
  match e with
  | OSError n f | IOError n f =>
      "[Errno " +:+ Py.str_of_Z n +:+ "] " +:+ strerror w n +:+ ": '" +:+ f +:+ "'"
  | URLError r => "<urlopen error " +:+ r +:+ ">"
  | ShutilError args => String.concat ", " args
  | UnboundLocalError x =>
      "local variable '" +:+ x +:+ "' referenced before assignment"
  | SystemExit n => Py.str_of_Z n
  | OtherError d => d
  end.

(** What a path names: a regular file with its content, or a directory.
    Other kinds of nodes (dangling symbolic links, FIFOs, sockets, devices)
    are not represented; the script's tests [isdir] and [isfile] are false
    for them, as they are for a path that names nothing. *)
Inductive node := File (content : string) | Dir.

(** What a run can change: the files and directories (by path), the two
    output channels (one element per call of [syslog] or [print]) and the
    global logger's [verbose] flag. *)
Record state := {
  fs : gmap string node;
  syslog : list string;
  stdout : list string;
  verbose : bool;
}.

Definition set_fs (f : gmap string node → gmap string node) (σ : state) : state :=
  {| fs := f (fs σ); syslog := syslog σ; stdout := stdout σ; verbose := verbose σ |}.

(** ** Effects: state and exceptions *)

Inductive result (A : Type) := Ok (a : A) | Raise (e : exc).
Arguments Ok {A} a.
Arguments Raise {A} e.

Definition M (A : Type) : Type := state → state * result A.

Definition ret {A} (a : A) : M A := λ σ, (σ, Ok a).
Definition raise {A} (e : exc) : M A := λ σ, (σ, Raise e).
Definition bind {A B} (m : M A) (k : A → M B) : M B :=
  λ σ, match m σ with
       | (σ', Ok a) => k a σ'
       | (σ', Raise e) => (σ', Raise e)
       end.

(** [try: m  except <class> as e: handler e] *)
Definition try_except {A} (m : M A) (class : exc → bool) (handler : exc → M A) : M A :=
  λ σ, match m σ with
       | (σ', Raise e) => if class e then handler e σ' else (σ', Raise e)
       | r => r
       end.

Notation "x <- m ;; k" := (bind m (λ x, k))
  (at level 100, m at next level, right associativity).
Notation "m ;;; k" := (bind m (λ _, k))
  (at level 100, right associativity).

(** [for x in xs: body x] *)
Fixpoint for_each {X} (xs : list X) (body : X → M unit) : M unit :=
  match xs with
  | [] => ret tt
  | x :: xs' => body x ;;; for_each xs' body
  end.

Definition get_state : M state := λ σ, (σ, Ok σ).
Definition modify (f : state → state) : M unit := λ σ, (f σ, Ok tt).

(** [print(message)] and [syslog.syslog(level, message)] *)
Definition print (message : string) : M unit :=
  modify (λ σ, {| fs := fs σ; syslog := syslog σ;
                  stdout := stdout σ ++ [message]; verbose := verbose σ |}).
Definition syslog_syslog (message : string) : M unit :=
  modify (λ σ, {| fs := fs σ; syslog := syslog σ ++ [message];
                  stdout := stdout σ; verbose := verbose σ |}).

(** ** The library calls that touch the file system

    The file system is a finite map from path strings to nodes; the entries
    of a directory [d] are the paths that start with [d/].  A request fails
    when the [world] refuses it or when the path has the wrong kind; parent
    directories are not checked, there are no links, and a call that fails
    half-way through a tree leaves the tree as it found it. *)

Module Os.

Definition path_exists (σ : state) (p : string) : bool :=
  bool_decide (is_Some (fs σ !! p)).
Definition isdir (σ : state) (p : string) : bool :=
  match fs σ !! p with Some Dir => true | _ => false end.
Definition isfile (σ : state) (p : string) : bool :=
  match fs σ !! p with Some (File _) => true | _ => false end.

(** [with open(p, 'r') as f: f.read()] *)
Definition open_read (w : world) (p : string) : M string := λ σ,
  match refused w (Open_r p) with
  | Some n => (σ, Raise (IOError n p))
  | None =>
      match fs σ !! p with
      | Some (File c) => (σ, Ok c)
      | Some Dir => (σ, Raise (IOError 21 p))
      | None => (σ, Raise (IOError 2 p))
      end
  end.

(** [with open(p, 'w') as f: f.write(text)] *)
Definition open_write (w : world) (p text : string) : M unit := λ σ,
  match refused w (Open_w p) with
  | Some n => (σ, Raise (IOError n p))
  | None =>
      match fs σ !! p with
      | Some Dir => (σ, Raise (IOError 21 p))
      | _ => (set_fs (insert p (File text)) σ, Ok tt)
      end
  end.

(** [os.mkdir(p)] *)
Definition mkdir (w : world) (p : string) : M unit := λ σ,
  if path_exists σ p then (σ, Raise (OSError 17 p))
  else match refused w (Mkdir p) with
       | Some n => (σ, Raise (OSError n p))
       | None => (set_fs (insert p Dir) σ, Ok tt)
       end.

(** [os.remove(p)], also [os.unlink(p)] *)
Definition unlink (w : world) (p : string) : M unit := λ σ,
  match fs σ !! p with
  | None => (σ, Raise (OSError 2 p))
  | Some Dir => (σ, Raise (OSError 1 p))
  | Some (File _) =>
      match refused w (Unlink p) with
      | Some n => (σ, Raise (OSError n p))
      | None => (set_fs (delete p) σ, Ok tt)
      end
  end.

(** The paths at or below [d], and the first of them the world will not
    let go. *)
Definition subtree (d : string) (m : gmap string node) : gmap string node :=
  filter (λ kv, Is_true (Py.under d kv.1)) m.
Definition without (d : string) (m : gmap string node) : gmap string node :=
  filter (λ kv, ¬ Is_true (Py.under d kv.1)) m.
Definition first_refusal (w : world) (paths : list string) : option (Z * string) :=
  head (omap (λ p, (λ n, (n, p)) <$> refused w (Unlink p)) paths).

(** [shutil.rmtree(p)] with the default [onerror], which re-raises. *)
Definition rmtree (w : world) (p : string) : M unit := λ σ,
  if negb (isdir σ p) then
    (σ, Raise (OSError (if path_exists σ p then 20%Z else 2%Z) p))
  else match first_refusal w (elements (dom (subtree p (fs σ)))) with
       | Some (n, q) => (σ, Raise (OSError n q))
       | None => (set_fs (without p) σ, Ok tt)
       end.

(** [p], found at or below [src], as it is called at or below [dst]. *)
Definition rebase (src dst p : string) : string :=
  dst +:+ String.substring (String.length src) (String.length p - String.length src) p.

Definition graft (src dst : string) (m : gmap string node) : gmap string node :=
  list_to_map (prod_map (rebase src dst) id <$> map_to_list (subtree src m)).

Definition is_empty_dir (m : gmap string node) (d : string) : bool :=
  bool_decide (size (subtree d m) = 1%nat).

(** [os.rename(src, dst)] *)
Definition rename (w : world) (src dst : string) : M unit := λ σ,
  match fs σ !! src with
  | None => (σ, Raise (OSError 2 src))
  | Some n =>
      if bool_decide (src = dst) then (σ, Ok tt)
      else if Py.under src dst then (σ, Raise (OSError 22 src))
      else
        let clash :=
          match n, fs σ !! dst with
          | _, None => None
          | File _, Some (File _) => None
          | File _, Some Dir => Some 21%Z
          | Dir, Some (File _) => Some 20%Z
          | Dir, Some Dir => if is_empty_dir (fs σ) dst then None else Some 66%Z
          end in
        match clash with
        | Some e => (σ, Raise (OSError e src))
        | None =>
            match refused w (Rename src dst) with
            | Some e => (σ, Raise (OSError e src))
            | None =>
                (set_fs (λ m, graft src dst m ∪ without dst (without src m)) σ, Ok tt)
            end
        end
  end.

(** [shutil.copy2(src, dst)] *)
Definition copy2 (w : world) (src dst : string) : M unit := λ σ,
  let dst := if isdir σ dst then Py.join dst (Py.basename src) else dst in
  bind (open_read w src) (λ text, open_write w dst text) σ.

(** What [copytree] cannot copy: a file it may not read or write, a
    directory it may not make. *)
Definition copy_refusal (w : world) (src dst : string) (kv : string * node)
    : option Z :=
  match kv.2 with
  | File _ =>
      match refused w (Open_r kv.1) with
      | Some e => Some e
      | None => refused w (Open_w (rebase src dst kv.1))
      end
  | Dir => refused w (Mkdir (rebase src dst kv.1))
  end.

(** [shutil.copytree(src, dst, symlinks=True)]: the failures below the
    top directory are collected and raised together at the end. *)
Definition copytree (w : world) (src dst : string) : M unit := λ σ,
  if negb (isdir σ src) then
    (σ, Raise (OSError (if path_exists σ src then 20%Z else 2%Z) src))
  else if path_exists σ dst then (σ, Raise (OSError 17 dst))
  else match refused w (Mkdir dst) with
       | Some e => (σ, Raise (OSError e dst))
       | None =>
           let failed :=
             filter (λ kv, kv.1 ≠ src ∧ is_Some (copy_refusal w src dst kv))
                    (map_to_list (subtree src (fs σ))) in
           match failed with
           | [] => (set_fs (λ m, graft src dst m ∪ m) σ, Ok tt)
           | _ => (σ, Raise (ShutilError (failed.*1)))
           end
       end.

(** [shutil.move(src, dst)] of Python 2.7. *)
Definition move (w : world) (src dst : string) : M unit := λ σ,
  if isdir σ dst && bool_decide (src = dst) then rename w src dst σ
  else
    let real_dst :=
      if isdir σ dst then Py.join dst (Py.basename (Py.rstrip Py.slash src))
      else dst in
    if isdir σ dst && path_exists σ real_dst then
      (σ, Raise (ShutilError
                   ["Destination path '" +:+ real_dst +:+ "' already exists"]))
    else
      try_except (rename w src real_dst) is_OSError (λ _ σ',
        if isdir σ' src then
          if Py.under src dst then
            (σ', Raise (ShutilError
                          ["Cannot move a directory '" +:+ src +:+
                           "' into itself '" +:+ dst +:+ "'."]))
          else (copytree w src real_dst ;;; rmtree w src) σ'
        else (copy2 w src real_dst ;;; unlink w src) σ') σ.

End Os.

(** ** The script *)

Module SavingThrow.

Definition nl : string := String Py.newline "".

Definition NEFARIOUS_FILE_SOURCES : list string :=
  ["https://gist.githubusercontent.com/sheagcraig/5c76604f823d45792952/raw/8e8eaa9f69905265912ccc615949505558ff40f6/AppleAdwareList"].

Definition CACHE : string := "/Library/Application Support/SavingThrow".

(** Executed when the module is loaded:
    [if not os.path.exists(CACHE): os.mkdir(CACHE)] *)
Definition create_cache (w : world) : M unit :=
  σ <- get_state ;;
  if negb (Os.path_exists σ CACHE) then Os.mkdir w CACHE else ret tt.

(** [class Logger], with the one global instance [logger]. *)
Module Logger.
Definition log (message : string) : M unit :=
  syslog_syslog message ;;;
  σ <- get_state ;;
  if verbose σ then print message else ret tt.

Definition vlog (message : string) : M unit :=
  syslog_syslog message ;;; print message.
End Logger.

(** [for x in xs: acc = body x acc], for loops that update locals. *)
Fixpoint for_fold {X S} (xs : list X) (body : X → S → M S) (acc : S) : M S :=
  match xs with
  | [] => ret acc
  | x :: xs' => acc' <- body x acc ;; for_fold xs' body acc'
  end.

(** ["...%s" % x] where [x] may be Python's [None]. *)
Definition percent_s (x : option string) : string := default "None" x.

Definition projectx_files : gset string :=
  {[ "/Library/LaunchAgents/com.*.agent.plist";
     "/Library/LaunchDaemons/com.*.helper.plist";
     "/Library/LaunchDaemons/com.*.daemon.plist" ]}.

Definition agent_regex : list Re.item :=
  Re.compile ".*/Library/Application Support/(.*)/Agent/agent.app/Contents/MacOS/agent".

Definition projectx_candidates (w : world) : gset string :=
  list_to_set (filename ← iteration w projectx_files; glob_glob w filename).

(** The body of the loop of [get_projectX_files]. *)
Definition examine (w : world) (candidate : string) (result : gset string)
    : M (gset string) :=
  launchd_job <- Os.open_read w candidate ;;
  match Re.search agent_regex launchd_job with
  | Some _ =>
      let result := result ∪ {[ candidate ]} in
      let obfuscated_name :=
        Re.search agent_regex launchd_job ≫= Re.group_1 in
      ret (result ∪ {[ "/Library/Application Support/" +:+ percent_s obfuscated_name ]})
  | None => ret result
  end.

Definition get_projectX_files (w : world) : M (gset string) :=
  for_fold (iteration w (projectx_candidates w)) (examine w) ∅.

Definition cache_file (source : string) : string :=
  Py.join CACHE (Py.basename source).

Definition urllib2_urlopen_read (w : world) (source : string) : M string :=
  match urlopen w source with
  | inl (Unreachable reason) => raise (URLError reason)
  | inl (Broken description) => raise (OtherError description)
  | inr body => ret body
  end.

(** The [try] statement of [load_adware_description_files] for one
    source.  [adware_list] is the local variable as the previous rounds
    left it, [None] while it is unbound; the new binding is returned. *)
Definition fetch (w : world) (source : string) (adware_list : option string)
    : M (option string) :=
  try_except
    (Logger.log ("Attempting to update Adware list: " +:+ source) ;;;
     fetched <- urllib2_urlopen_read w source ;;
     try_except (Os.open_write w (cache_file source) fetched)
       is_IOError
       (λ e, if bool_decide (exc_item0 e = Some 13%Z)
             then print "Please run as root!" ;;; raise (SystemExit 13)
             else raise e) ;;;
     ret (Some fetched))
    is_URLError
    (λ e,
       Logger.log ("Update failed: " +:+ exc_message e +:+
                   ". Looking for cached copy") ;;;
       try_except
         (cached <- Os.open_read w (cache_file source) ;; ret (Some cached))
         is_IOError
         (λ e', Logger.log ("Error: No cached copy of " +:+ source +:+
                            " or other error " +:+ exc_message e') ;;;
                ret adware_list)).

(** One round of the loop: the [try] statement, then
    [known_adware.update({file for file in adware_list.split('\n')})]. *)
Definition load_source (w : world) (source : string)
    (locals : gset string * option string) : M (gset string * option string) :=
  adware_list <- fetch w source locals.2 ;;
  match adware_list with
  | None => raise (UnboundLocalError "adware_list")
  | Some text =>
      ret (locals.1 ∪ list_to_set (Py.split Py.newline text), adware_list)
  end.

Definition load_adware_description_files (w : world) (sources : list string)
    : M (gset string) :=
  locals <- for_fold sources (load_source w) (∅, None) ;;
  ret locals.1.

(** The body of the loop of [remove]. *)
Definition remove_item (w : world) (item : string) : M unit :=
  try_except
    (σ <- get_state ;;
     (if Os.isdir σ item then Os.rmtree w item
      else if Os.isfile σ item then Os.unlink w item
      else ret tt) ;;;
     Logger.log ("Removed adware file:  " +:+ item))
    is_OSError
    (λ e, Logger.log ("Failed to remove adware file:  " +:+ item +:+
                      ", " +:+ exc_str w e)).

Definition remove (w : world) (files : gset string) : M unit :=
  for_each (iteration w files) (remove_item w).

Definition timestamp_format : string := "%Y%m%d-%H%M%S".

(** The body of the loop of [quarantine]; [backup_dir] is [None] while
    the local variable is unbound. *)
Definition quarantine_item (w : world) (backup_dir : option string)
    (item : string) : M unit :=
  try_except
    (match backup_dir with
     | Some dir => Os.move w item dir
     | None => raise (UnboundLocalError "backup_dir")
     end ;;;
     Logger.log ("Quarantined adware file:  " +:+ item))
    is_OSError
    (λ e, Logger.log ("Failed to quarantine adware file:  " +:+ item +:+
                      ", " +:+ exc_str w e)).

Definition quarantine (w : world) (files : gset string) : M unit :=
  backup_dir <-
    (if decide (files ≠ ∅) then
       let backup_dir := Py.join CACHE (Py.strftime timestamp_format (localtime w)) in
       Os.mkdir w backup_dir ;;; ret (Some backup_dir)
     else ret None) ;;
  for_each (iteration w files) (quarantine_item w backup_dir).

(** [enumerate(xs)] *)
Definition enumerate {A} (xs : list A) : list (nat * A) := imap pair xs.

(** [result += "%d: %s\n" % item] *)
Definition add_line (result : string) (item : nat * string) : string :=
  result +:+ (Py.str_of_nat item.1 +:+ ": " +:+ item.2 +:+ nl).

Definition report_to_stdout (w : world) (files : gset string) : M unit :=
  let result := "Adware files found: " +:+ Py.str_of_nat (size files) +:+ nl in
  let result :=
    if decide (files ≠ ∅)
    then fold_left add_line (enumerate (iteration w files)) result
    else result in
  Logger.vlog result.

(** The string [extension_attribute] builds. *)
Definition extension_attribute_result (w : world) (files : gset string) : string :=
  let result := "<result>" in
  let result :=
    if decide (files ≠ ∅)
    then fold_left add_line (enumerate (iteration w files)) (result +:+ "True" +:+ nl)
    else result +:+ "False" in
  result +:+ "</result>".

Definition extension_attribute (w : world) (files : gset string) : M unit :=
  Logger.vlog (extension_attribute_result w files).

(** [{match for filename in known_adware for match in glob.glob(filename)}] *)
Definition found_adware (w : world) (known_adware : gset string) : gset string :=
  list_to_set (filename ← iteration w known_adware; glob_glob w filename).

(** The parsed command line. *)
Record arguments := {
  arg_verbose : bool; arg_stdout : bool; arg_remove : bool; arg_quarantine : bool
}.

Definition main (w : world) (args : arguments) : M unit :=
  (if arg_verbose args
   then modify (λ σ, {| fs := fs σ; syslog := syslog σ;
                        stdout := stdout σ; verbose := true |})
   else ret tt) ;;;
  loaded <- load_adware_description_files w NEFARIOUS_FILE_SOURCES ;;
  let known_adware : gset string := ∅ ∪ loaded in
  projectx <- get_projectX_files w ;;
  let known_adware := known_adware ∪ projectx in
  let found := found_adware w known_adware in
  if arg_remove args then remove w found
  else if arg_quarantine args then quarantine w found
  else if arg_stdout args then report_to_stdout w found
  else extension_attribute w found.

(** Loading the module, then [main()]. *)
Definition script (w : world) (args : arguments) : M unit :=
  create_cache w ;;; main w args.

(** The exit status of the interpreter: [sys.exit(n)] gives [n], any
    other exception that nothing catches ends the process with a
    traceback and status 1. *)
Definition exit_status {A} (r : result A) : Z :=
  match r with
  | Ok _ => 0%Z
  | Raise (SystemExit n) => n
  | Raise _ => 1%Z
  end.

End SavingThrow.

(** ** Notions used to state the properties *)

Import SavingThrow.

(** The enumerated listing of the two reports, written line by line. *)
Definition listing_line (i : nat) (path : string) : string :=
  Py.str_of_nat i +:+ ": " +:+ path +:+ nl.
Definition listing (paths : list string) : string :=
  foldr String.append "" (imap listing_line paths).

(** What a state looks like after [lines] went to the system log and
    [printed] to the standard output. *)
Definition with_output (lines printed : list string) (σ : state) : state :=
  {| fs := fs σ; syslog := syslog σ ++ lines;
     stdout := stdout σ ++ printed; verbose := verbose σ |}.

(** The state after [Logger.log message]. *)
Definition log_state (message : string) (σ : state) : state :=
  with_output [message] (if verbose σ then [message] else []) σ.

(** The parts of [agent_regex]: after the leading [.*], the literal
    directory, the group, and the path of the binary below it, whose dot
    stands for any character. *)
Definition agent_prefix : list ascii :=
  list_ascii_of_string "/Library/Application Support/".
Definition agent_suffix : list Re.atom :=
  Re.atom_of <$> list_ascii_of_string "/Agent/agent.app/Contents/MacOS/agent".
Definition agent_tail : list Re.item :=
  ((Re.One ∘ Re.Lit <$> agent_prefix) ++
   Re.GroupOpen :: Re.Many Re.AnyChar :: Re.GroupClose :: (Re.One <$> agent_suffix))%list.

Definition accepted (a : Re.atom) (u : list ascii) : Prop :=
  Forall (λ c, Re.accepts a c = true) u.
Definition accepted_by (atoms : list Re.atom) (x : list ascii) : Prop :=
  Forall2 (λ a c, Re.accepts a c = true) atoms x.

(** The path the claims speak of, and its parts. *)
Definition foobar_name : string := "com.foobar123.mac".
Definition foobar_binary : string :=
  "/Library/Application Support/com.foobar123.mac/Agent/agent.app/Contents/MacOS/agent".
Definition foobar_directory : string :=
  "/Library/Application Support/com.foobar123.mac".
Definition agent_marker : string := "/Agent/agent".

(** The log lines of the remediator. *)
Definition removed_line (item : string) : string :=
  "Removed adware file:  " +:+ item.
Definition remove_failed_line (w : world) (item : string) (e : exc) : string :=
  "Failed to remove adware file:  " +:+ item +:+ ", " +:+ exc_str w e.
Definition quarantined_line (item : string) : string :=
  "Quarantined adware file:  " +:+ item.
Definition quarantine_failed_line (w : world) (item : string) (e : exc) : string :=
  "Failed to quarantine adware file:  " +:+ item +:+ ", " +:+ exc_str w e.




(** A local time as a clock gives it, and the timestamp [YYYYMMDD-HHMMSS]
    written digit by digit. *)
Definition tm_ok (t : Py.tm) : Prop :=
  (1900 ≤ Z.of_nat (Py.tm_year t) ≤ 9999)%Z
  ∧ (1 ≤ Py.tm_mon t ≤ 12 ∧ 1 ≤ Py.tm_mday t ≤ 31
     ∧ Py.tm_hour t ≤ 23 ∧ Py.tm_min t ≤ 59 ∧ Py.tm_sec t ≤ 61)%nat.

Definition digit (k : nat) : ascii := Ascii.ascii_of_nat (48 + k).
Definition two_digits (n : nat) (rest : string) : string :=
  String (digit (n / 10 mod 10)) (String (digit (n mod 10)) rest).
Definition four_digits (n : nat) (rest : string) : string :=
  String (digit (n / 1000 mod 10)) (String (digit (n / 100 mod 10)) (two_digits n rest)).
Definition timestamp (t : Py.tm) : string :=
  four_digits (Py.tm_year t) (two_digits (Py.tm_mon t) (two_digits (Py.tm_mday t)
    (String "-"%char (two_digits (Py.tm_hour t) (two_digits (Py.tm_min t)
       (two_digits (Py.tm_sec t) "")))))).

(** A name without slash. *)
Definition no_slash (b : string) : Prop := Py.slash ∉ list_ascii_of_string b.

(** Where [shutil.move] puts an entry inside the directory [dir]. *)
Definition quarantined_path (dir item : string) : string :=
  Py.join dir (Py.basename (Py.rstrip Py.slash item)).

(** What reading a path gives, when it can be read. *)
Definition read_text (w : world) (σ : state) (path : string) : option string :=
  match Os.open_read w path σ with
  | (_, Ok text) => Some text
  | (_, Raise _) => None
  end.

(** What a readable candidate adds to the result of the detector. *)
Definition contribution (w : world) (σ : state) (candidate : string) : gset string :=
  match read_text w σ candidate ≫= Re.search agent_regex with
  | Some m =>
      {[ candidate; "/Library/Application Support/" +:+ percent_s (Re.group_1 m) ]}
  | None => ∅
  end.

(** The state in which [main] starts to fetch: [-v] switches the logger to
    verbose. *)
Definition verbosity (args : arguments) (σ : state) : state :=
  if arg_verbose args
  then {| fs := fs σ; syslog := syslog σ; stdout := stdout σ; verbose := true |}
  else σ.

(** The directory [quarantine] makes for this run. *)
Definition backup_dir_of (w : world) : string :=
  Py.join CACHE (Py.strftime timestamp_format (localtime w)).

(** The three log lines of a source that can neither be downloaded nor
    found in the cache. *)
Definition attempt_line (source : string) : string :=
  "Attempting to update Adware list: " +:+ source.
Definition update_failed_line : string :=
  "Update failed: . Looking for cached copy".
Definition no_cache_line (source : string) : string :=
  "Error: No cached copy of " +:+ source +:+ " or other error ".

(** All the pieces of a body between newlines, empty ones included. *)
Definition pieces (body : string) : gset string :=
  list_to_set (Py.split Py.newline body).

(** The text a source yields when the cache holds [m]: the body when the
    download succeeds and the cache takes the copy, the cached copy when
    the source is unreachable and the copy can be read. *)
Definition source_text (w : world) (m : gmap string node) (source : string)
    : option string :=
  match urlopen w source with
  | inr body =>
      match refused w (Open_w (cache_file source)), m !! cache_file source with
      | Some _, _ | None, Some Dir => None
      | None, _ => Some body
      end
  | inl (Unreachable _) =>
      match refused w (Open_r (cache_file source)), m !! cache_file source with
      | None, Some (File cached) => Some cached
      | _, _ => None
      end
  | inl (Broken _) => None
  end.

(** The cache after a source had its turn. *)
Definition cache_after (w : world) (m : gmap string node) (source : string)
    : gmap string node :=
  match urlopen w source with
  | inr body => <[cache_file source := File body]> m
  | inl _ => m
  end.

(** The texts of all the sources in turn, when each of them yields one. *)
Fixpoint source_texts (w : world) (m : gmap string node) (sources : list string)
    : option (list string) :=
  match sources with
  | [] => Some []
  | source :: rest =>
      text ← source_text w m source;
      texts ← source_texts w (cache_after w m source) rest;
      Some (text :: texts)
  end.

(** Sample worlds and states on which the properties are evaluated. *)
Definition noon : Py.tm :=
  {| Py.tm_year := 2015; Py.tm_mon := 3; Py.tm_mday := 9;
     Py.tm_hour := 12; Py.tm_min := 0; Py.tm_sec := 7 |}.

Definition quiet_world : world :=
  {| urlopen := λ _, inl (Unreachable "no route to host");
     glob_glob := λ _, [];
     localtime := noon;
     refused := λ _, None;
     strerror := λ _, "Unknown error";
     iteration := elements |}.

Definition empty_state : state :=
  {| fs := ∅; syslog := []; stdout := []; verbose := false |}.

Definition state_of (files : gmap string node) : state :=
  {| fs := files; syslog := []; stdout := []; verbose := false |}.

(** A world whose globbing finds [/opt/ad] for two different patterns. *)
Definition overlapping_world : world :=
  {| urlopen := urlopen quiet_world;
     glob_glob := λ p, if decide (p = "/opt/a*") then ["/opt/ad"]
                       else if decide (p = "/opt/?d") then ["/opt/ad"; "/opt/bd"]
                       else [];
     localtime := noon;
     refused := λ _, None;
     strerror := strerror quiet_world;
     iteration := elements |}.

(** A world that serves every list as the single line [/opt/ad],
    newline-terminated, and one whose cache is read-only or full. *)
Definition serving_world (write_errno : option Z) : world :=
  {| urlopen := λ _, inr ("/opt/ad" +:+ nl);
     glob_glob := λ _, [];
     localtime := noon;
     refused := λ c, match c with Open_w _ => write_errno | _ => None end;
     strerror := strerror quiet_world;
     iteration := elements |}.

(** A world with one LaunchAgent candidate, and launchd jobs for it. *)
Definition foobar_plist : string := "/Library/LaunchAgents/com.foobar123.agent.plist".

Definition agent_world : world :=
  {| urlopen := urlopen quiet_world;
     glob_glob := λ p, if decide (p = "/Library/LaunchAgents/com.*.agent.plist")
                       then [foobar_plist] else [];
     localtime := noon;
     refused := λ _, None;
     strerror := strerror quiet_world;
     iteration := elements |}.

Definition job_one_line : string :=
  "<array><string>" +:+ foobar_binary +:+ "</string><string>/Library/Application Support/com.other.mac/Agent/agent.app/Contents/MacOS/agent</string></array>".

Definition job_plain : string :=
  "<key>ProgramArguments</key>" +:+ nl +:+ "<array><string>" +:+ foobar_binary
  +:+ "</string></array>" +:+ nl.

Definition no_arguments : arguments :=
  {| arg_verbose := false; arg_stdout := false;
     arg_remove := false; arg_quarantine := false |}.

Definition backup_dir_at_noon : string :=
  "/Library/Application Support/SavingThrow/20150309-120007".

(** A machine with two adware entries, one of them a directory. *)
Definition infected : gmap string node :=
  {[ "/opt/ad" := File "x"; "/opt/tool" := Dir; "/opt/tool/run" := File "y" ]}.
(** Two entries with the same base name. *)
Definition twins : gmap string node :=
  {[ "/opt/ad" := File "x"; "/usr/ad" := File "y" ]}.

(** A world whose hash sets come out in the other order. *)
Definition backwards_world : world :=
  {| urlopen := urlopen quiet_world;
     glob_glob := λ _, [];
     localtime := noon;
     refused := λ _, None;
     strerror := strerror quiet_world;
     iteration := λ X, reverse (elements X) |}.

(** Two entries with the same base name, and a third one. *)
Definition twins_and_tool : gmap string node :=
  {[ "/opt/ad" := File "x"; "/usr/ad" := File "y"; "/usr/tool" := File "z" ]}.



(** A world whose downloads break off while the body is read. *)
Definition stalled_world : world :=
  {| urlopen := λ _, inl (Broken "timed out");
     glob_glob := λ _, [];
     localtime := noon;
     refused := λ _, None;
     strerror := strerror quiet_world;
     iteration := elements |}.

(** The cache after every source of a list had its turn. *)
Definition cache_after_all (w : world) (m : gmap string node) (sources : list string)
    : gmap string node :=
  foldl (cache_after w) m sources.

(** A world without network: no source can be reached. *)
Definition offline (w : world) (sources : list string) : Prop :=
  ∀ source, source ∈ sources →
    (∃ reason, urlopen w source = inl (Unreachable reason))
    ∧ refused w (Open_r (cache_file source)) = None.

(** A world that serves every source, with a cache that takes the copies. *)
Definition online (w : world) (m : gmap string node) (sources : list string) : Prop :=
  ∀ source, source ∈ sources →
    (∃ body, urlopen w source = inr body)
    ∧ refused w (Open_w (cache_file source)) = None
    ∧ m !! cache_file source ≠ Some Dir.

Definition two_lists : list string :=
  ["http://lists.example/first"; "http://lists.example/second"].

(** The path of the binary below the directory [name] of Application
    Support, with [dot] where the pattern has its unescaped dot. *)
Definition binary_below (name : string) (dot : ascii) : string :=
  "/Library/Application Support/" +:+ name +:+ "/Agent/agent"
  +:+ String dot "app/Contents/MacOS/agent".

(** A world in which the user may not make directories. *)
Definition unprivileged_world : world :=
  {| urlopen := λ _, inr ("/opt/ad" +:+ nl);
     glob_glob := λ p, if decide (p = "/opt/ad") then ["/opt/ad"] else [];
     localtime := noon;
     refused := λ c, match c with Mkdir _ => Some 13%Z | _ => None end;
     strerror := strerror quiet_world;
     iteration := elements |}.


(** ** Basic facts: strings, the monad, iteration *)

Lemma string_app_cons (x : ascii) (a b : string) :
  String x a +:+ b = String x (a +:+ b).
Proof. done. Qed.

Lemma string_app_assoc (a b c : string) : (a +:+ b) +:+ c = a +:+ (b +:+ c).
Proof. induction a as [|x a IH]; [done|]. by rewrite !string_app_cons, IH. Qed.

Lemma string_app_nil_r (a : string) : a +:+ "" = a.
Proof. induction a as [|x a IH]; [done|]. by rewrite string_app_cons, IH. Qed.

Lemma iteration_elem_of (w : world) (X : gset string) (x : string) :
  iteration_ok w → x ∈ iteration w X ↔ x ∈ X.
Proof. intros Hw. rewrite (Hw X). apply elem_of_elements. Qed.

Lemma iteration_NoDup (w : world) (X : gset string) :
  iteration_ok w → NoDup (iteration w X).
Proof. intros Hw. rewrite (Hw X). apply NoDup_elements. Qed.

Lemma iteration_elements_ok (w : world) :
  iteration w = elements → iteration_ok w.
Proof. intros Hi X. by rewrite Hi. Qed.

(** ** The structured report (C6) *)

Lemma fold_add_line (paths : list string) (k : nat) (acc : string) :
  fold_left add_line (imap (λ i, pair (k + i)%nat) paths) acc
  = acc +:+ foldr String.append "" (imap (λ i, listing_line (k + i)) paths).
Proof.
  revert k acc. induction paths as [|p paths IH]; intros k acc.
  - cbn. by rewrite string_app_nil_r.
  - cbn [imap fold_left foldr].
    rewrite (imap_ext _ (λ i, pair (S k + i)%nat) paths)
      by (intros; cbn; f_equal; lia).
    rewrite (imap_ext (_ ∘ S) (λ i, listing_line (S k + i)) paths)
      by (intros; cbn; f_equal; lia).
    rewrite IH. unfold add_line at 1. cbn [fst snd].
    by rewrite string_app_assoc.
Qed.

Lemma fold_add_line_enumerate (paths : list string) (acc : string) :
  fold_left add_line (enumerate paths) acc = acc +:+ listing paths.
Proof. apply (fold_add_line paths 0). Qed.

(** C6. [extension_attribute] hands the logger one string, which goes to
    the system log and to the standard output.  For the empty match set it
    is exactly [<result>False</result>]; for a non-empty one it is
    [<result>], the token [True], a newline, then one newline-terminated
    line [i: path] per entry, numbered from 0 in iteration order, then
    [</result>]; for the matches [/a] and [/b], iterated in this order, it is
    [<result>True\n0: /a\n1: /b\n</result>]. *)
Theorem extension_attribute_format (w : world) (files : gset string) (σ : state) :
  let out := extension_attribute_result w files in
  extension_attribute w files σ = (with_output [out] [out] σ, Ok tt)
  ∧ (files = ∅ → out = "<result>False</result>")
  ∧ (files ≠ ∅ →
     out = "<result>" +:+ "True" +:+ nl +:+ listing (iteration w files) +:+ "</result>")
  ∧ (files = {[ "/a"; "/b" ]} → iteration w files = ["/a"; "/b"] →
     out = "<result>True" +:+ nl +:+ "0: /a" +:+ nl +:+ "1: /b" +:+ nl +:+ "</result>").
Proof.
  cbn zeta. split; [done|].
  assert (Hne : files ≠ ∅ → extension_attribute_result w files =
    "<result>" +:+ "True" +:+ nl +:+ listing (iteration w files) +:+ "</result>").
  { intros Hne. unfold extension_attribute_result.
    destruct (decide (files ≠ ∅)) as [_|[]]; [|done].
    rewrite fold_add_line_enumerate. by rewrite !string_app_assoc. }
  split; [|split; [exact Hne|]].
  - intros ->. unfold extension_attribute_result.
    by destruct (decide (∅ ≠ ∅)) as [[]|_].
  - intros Hab Hit. rewrite Hne; [by rewrite Hit|].
    rewrite Hab. intros Hempty. apply (elem_of_empty (C:=gset string) "/a").
    rewrite <- Hempty. apply elem_of_union. left. by apply elem_of_singleton.
Qed.

Lemma extension_attribute_format_witness :
  extension_attribute_result quiet_world {[ "/a"; "/b" ]}
  = "<result>True" +:+ nl +:+ "0: /a" +:+ nl +:+ "1: /b" +:+ nl +:+ "</result>"
  ∧ extension_attribute_result quiet_world ∅ = "<result>False</result>".
Proof.
  split.
  - apply (extension_attribute_format quiet_world {[ "/a"; "/b" ]} empty_state);
      [reflexivity | vm_compute; reflexivity].
  - apply (extension_attribute_format quiet_world ∅ empty_state). reflexivity.
Defined.

(** ** The matcher (C8) *)

Lemma elem_of_found_adware (w : world) (P : gset string) (m : string) :
  iteration_ok w →
  m ∈ found_adware w P ↔ ∃ pattern, pattern ∈ P ∧ m ∈ glob_glob w pattern.
Proof.
  intros Hw. unfold found_adware.
  rewrite elem_of_list_to_set, list_elem_of_bind.
  split; intros (p & H1 & H2); exists p.
  - by rewrite <- (iteration_elem_of w P p Hw).
  - by rewrite (iteration_elem_of w P p Hw).
Qed.

Lemma filter_eq_absent (l : list string) (x : string) :
  x ∉ l → filter (λ y, y = x) l = [].
Proof.
  induction l as [|y l IH]; [done|]. intros Hx.
  apply not_elem_of_cons in Hx as [Hne Hx].
  rewrite filter_cons. destruct (decide (y = x)); [congruence|]. by apply IH.
Qed.

Lemma NoDup_count_one (l : list string) (x : string) :
  NoDup l → x ∈ l → length (filter (λ y, y = x) l) = 1%nat.
Proof.
  induction 1 as [|y l Hy Hl IH]; intros Hx; [by apply elem_of_nil in Hx|].
  rewrite filter_cons. destruct (decide (y = x)) as [->|Hne].
  - cbn. by rewrite filter_eq_absent.
  - apply IH. apply elem_of_cons in Hx as [->|Hx]; done.
Qed.

(** C8. Expanding a union of pattern sets gives the union of the
    expansions, expanding no pattern gives no file, and a file that two
    different patterns match is met exactly once when the result is
    iterated. *)
Theorem found_adware_union (w : world) (P1 P2 : gset string) :
  iteration_ok w →
  found_adware w (P1 ∪ P2) = found_adware w P1 ∪ found_adware w P2
  ∧ found_adware w ∅ = ∅
  ∧ ∀ p1 p2 m, p1 ∈ P1 ∪ P2 → p2 ∈ P1 ∪ P2 → p1 ≠ p2 →
      m ∈ glob_glob w p1 → m ∈ glob_glob w p2 →
      m ∈ found_adware w (P1 ∪ P2)
      ∧ length (filter (λ y, y = m) (iteration w (found_adware w (P1 ∪ P2)))) = 1%nat.
Proof.
  intros Hw. split; [|split].
  - apply set_eq. intros m.
    rewrite elem_of_union, !elem_of_found_adware by done.
    setoid_rewrite elem_of_union. split.
    + intros (p & [Hp|Hp] & Hm); [left|right]; eauto.
    + intros [(p & Hp & Hm)|(p & Hp & Hm)]; exists p; eauto.
  - apply set_eq. intros m. rewrite elem_of_found_adware by done.
    split; [intros (p & Hp & _); by apply elem_of_empty in Hp|].
    intros Hm. by apply elem_of_empty in Hm.
  - intros p1 p2 m Hp1 _ _ Hm1 _.
    assert (Hm : m ∈ found_adware w (P1 ∪ P2)).
    { apply elem_of_found_adware; eauto. }
    split; [done|].
    apply NoDup_count_one; [by apply iteration_NoDup|].
    by apply iteration_elem_of.
Qed.

Lemma found_adware_union_witness :
  found_adware overlapping_world ({[ "/opt/a*" ]} ∪ {[ "/opt/?d" ]})
  = found_adware overlapping_world {[ "/opt/a*" ]}
    ∪ found_adware overlapping_world {[ "/opt/?d" ]}
  ∧ length (filter (λ y, y = "/opt/ad")
      (iteration overlapping_world
         (found_adware overlapping_world ({[ "/opt/a*" ]} ∪ {[ "/opt/?d" ]}))))
    = 1%nat.
Proof.
  pose proof (found_adware_union overlapping_world {[ "/opt/a*" ]} {[ "/opt/?d" ]}
                (iteration_elements_ok overlapping_world eq_refl)) as (H1 & _ & H3).
  split; [exact H1|].
  apply (H3 "/opt/a*" "/opt/?d" "/opt/ad").
  - apply elem_of_union. left. by apply elem_of_singleton.
  - apply elem_of_union. right. by apply elem_of_singleton.
  - discriminate.
  - vm_compute. constructor.
  - vm_compute. constructor.
Defined.

(** ** The timestamp collision (C10) *)

(** C10. When the match set is not empty and an entry with the name of the
    current timestamp already exists under the cache root, [os.mkdir]
    raises an [OSError] that [quarantine] lets through: the call ends there,
    nothing has been moved and nothing has been logged. *)
Theorem quarantine_collision (w : world) (files : gset string) (σ : state) :
  files ≠ ∅ →
  Os.path_exists σ (backup_dir_of w) = true →
  quarantine w files σ = (σ, Raise (OSError 17 (backup_dir_of w))).
Proof.
  intros Hne Hex. unfold quarantine, bind.
  destruct (decide (files ≠ ∅)) as [_|[]]; [|done].
  fold (backup_dir_of w). unfold Os.mkdir. by rewrite Hex.
Qed.

Lemma quarantine_collision_witness :
  quarantine quiet_world {[ "/opt/ad" ]}
    (state_of {[ backup_dir_at_noon := Dir; "/opt/ad" := File "x" ]})
  = (state_of {[ backup_dir_at_noon := Dir; "/opt/ad" := File "x" ]},
     Raise (OSError 17 backup_dir_at_noon)).
Proof.
  apply (quarantine_collision quiet_world {[ "/opt/ad" ]}
           (state_of {[ backup_dir_at_noon := Dir; "/opt/ad" := File "x" ]}));
    [|vm_compute; reflexivity].
  intros Hempty. apply (elem_of_empty (C:=gset string) "/opt/ad").
  rewrite <- Hempty. by apply elem_of_singleton.
Defined.

(** ** The list fetcher (C2, C7, C9) *)

Lemma log_run (message : string) (σ : state) :
  Logger.log message σ = (log_state message σ, Ok tt).
Proof.
  unfold Logger.log, log_state, with_output, bind, syslog_syslog, modify,
    get_state, print, ret. cbn.
  destruct (verbose σ); cbn; by rewrite ?app_nil_r.
Qed.

Lemma log_state_fs (message : string) (σ : state) : fs (log_state message σ) = fs σ.
Proof. done. Qed.


(** The network is down and the cache has no entry: [fetch] logs three
    lines and leaves [adware_list] as it was. *)
Lemma fetch_unreachable_no_cache (w : world) (source reason : string)
    (adware_list : option string) (σ : state) :
  urlopen w source = inl (Unreachable reason) →
  fs σ !! cache_file source = None →
  fetch w source adware_list σ
  = (log_state (no_cache_line source)
       (log_state update_failed_line (log_state (attempt_line source) σ)),
     Ok adware_list).
Proof.
  intros Hnet Hfs. unfold fetch, try_except at 1, bind at 1.
  rewrite log_run. unfold bind at 1, urllib2_urlopen_read. rewrite Hnet.
  unfold raise. cbn [is_URLError]. unfold bind at 1. rewrite log_run.
  unfold try_except, bind at 1, Os.open_read. rewrite log_state_fs, log_state_fs, Hfs.
  destruct (refused w (Open_r (cache_file source))); cbn [is_IOError];
    unfold bind; rewrite log_run; done.
Qed.

(** The download succeeds and the cache takes the copy. *)
Lemma fetch_downloaded (w : world) (source body : string)
    (adware_list : option string) (σ : state) :
  urlopen w source = inr body →
  refused w (Open_w (cache_file source)) = None →
  fs σ !! cache_file source ≠ Some Dir →
  fetch w source adware_list σ
  = (set_fs (insert (cache_file source) (File body)) (log_state (attempt_line source) σ),
     Ok (Some body)).
Proof.
  intros Hnet Hw Hfs. unfold fetch, try_except at 1, bind at 1.
  rewrite log_run. unfold bind at 1, urllib2_urlopen_read. rewrite Hnet.
  unfold ret at 1. unfold bind at 1, try_except, Os.open_write.
  rewrite Hw, log_state_fs.
  destruct (fs σ !! cache_file source) as [[]|] eqn:E; done.
Qed.

(** The download succeeds and the cache refuses the copy. *)
Lemma fetch_cache_refused (w : world) (source body : string) (errno : Z)
    (adware_list : option string) (σ : state) :
  urlopen w source = inr body →
  refused w (Open_w (cache_file source)) = Some errno →
  fetch w source adware_list σ
  = if bool_decide (errno = 13%Z)
    then (with_output [] ["Please run as root!"] (log_state (attempt_line source) σ),
          Raise (SystemExit 13))
    else (log_state (attempt_line source) σ,
          Raise (IOError errno (cache_file source))).
Proof.
  intros Hnet Hw. unfold fetch, try_except at 1, bind at 1.
  rewrite log_run. unfold bind at 1, urllib2_urlopen_read. rewrite Hnet.
  unfold ret at 1. unfold bind at 1, try_except at 1, Os.open_write.
  rewrite Hw. cbn [is_IOError exc_item0].
  rewrite (bool_decide_ext (Some errno = Some 13%Z) (errno = 13%Z)) by naive_solver.
  destruct (bool_decide (errno = 13%Z)); [|done].
  unfold bind, print, modify, raise, with_output. cbn. by rewrite app_nil_r.
Qed.

(** The source is unreachable and its cached copy is read. *)
Lemma fetch_from_cache (w : world) (source reason cached : string)
    (adware_list : option string) (σ : state) :
  urlopen w source = inl (Unreachable reason) →
  refused w (Open_r (cache_file source)) = None →
  fs σ !! cache_file source = Some (File cached) →
  fetch w source adware_list σ
  = (log_state update_failed_line (log_state (attempt_line source) σ),
     Ok (Some cached)).
Proof.
  intros Hnet Hr Hfs. unfold fetch, try_except at 1, bind at 1.
  rewrite log_run. unfold bind at 1, urllib2_urlopen_read. rewrite Hnet.
  unfold raise. cbn [is_URLError]. unfold bind at 1. rewrite log_run.
  unfold try_except, bind at 1, Os.open_read.
  by rewrite Hr, log_state_fs, log_state_fs, Hfs.
Qed.

(** [sys.exit] is reached only through a cache write refused with
    errno 13. *)
Lemma fetch_SystemExit (w : world) (source : string) (adware_list : option string)
    (σ σ' : state) (n : Z) :
  fetch w source adware_list σ = (σ', Raise (SystemExit n)) →
  n = 13%Z ∧ ∃ body, urlopen w source = inr body
                   ∧ refused w (Open_w (cache_file source)) = Some 13%Z.
Proof.
  destruct (urlopen w source) as [[reason|description]|body] eqn:Hnet.
  - unfold fetch, try_except at 1, bind at 1.
    rewrite log_run. unfold bind at 1, urllib2_urlopen_read. rewrite Hnet.
    unfold raise. cbn [is_URLError]. unfold bind at 1. rewrite log_run.
    unfold try_except, bind at 1, Os.open_read.
    destruct (refused w (Open_r (cache_file source))); cbn [is_IOError].
    + unfold bind. by rewrite log_run.
    + destruct (fs _ !! cache_file source) as [[]|]; cbn [is_IOError];
        unfold bind, ret; rewrite ?log_run; done.
  - unfold fetch, try_except at 1, bind at 1.
    rewrite log_run. unfold bind at 1, urllib2_urlopen_read. rewrite Hnet. done.
  - destruct (refused w (Open_w (cache_file source))) as [errno|] eqn:Hw.
    + rewrite (fetch_cache_refused w source body errno) by done.
      case_bool_decide as He; [|done]. intros [= _ <-]. subst errno. eauto.
    + unfold fetch, try_except at 1, bind at 1.
      rewrite log_run. unfold bind at 1, urllib2_urlopen_read. rewrite Hnet.
      unfold ret at 1. unfold bind at 1, try_except, Os.open_write. rewrite Hw.
      destruct (fs _ !! cache_file source) as [[]|]; cbn [is_IOError]; done.
Qed.

Lemma load_source_SystemExit (w : world) (source : string)
    (locals : gset string * option string) (σ σ' : state) (n : Z) :
  load_source w source locals σ = (σ', Raise (SystemExit n)) →
  n = 13%Z ∧ ∃ body, urlopen w source = inr body
                   ∧ refused w (Open_w (cache_file source)) = Some 13%Z.
Proof.
  unfold load_source, bind.
  destruct (fetch w source locals.2 σ) as [σ1 [[text|]|e]] eqn:Hf; [done|done|].
  intros [= -> ->]. by apply fetch_SystemExit in Hf.
Qed.

Lemma for_fold_app {X S} (xs ys : list X) (body : X → S → M S) (acc : S) (σ : state) :
  for_fold (xs ++ ys) body acc σ
  = match for_fold xs body acc σ with
    | (σ', Ok acc') => for_fold ys body acc' σ'
    | (σ', Raise e) => (σ', Raise e)
    end.
Proof.
  revert acc σ. induction xs as [|x xs IH]; intros acc σ; [done|].
  cbn [app for_fold]. unfold bind.
  destruct (body x acc σ) as [σ1 [acc1|e]]; [apply IH|done].
Qed.

Lemma load_loop_SystemExit (w : world) (sources : list string)
    (locals : gset string * option string) (σ σ' : state) (n : Z) :
  for_fold sources (load_source w) locals σ = (σ', Raise (SystemExit n)) →
  n = 13%Z ∧ ∃ source body, source ∈ sources ∧ urlopen w source = inr body
                          ∧ refused w (Open_w (cache_file source)) = Some 13%Z.
Proof.
  revert locals σ. induction sources as [|s sources IH]; intros locals σ; [done|].
  cbn [for_fold]. unfold bind.
  destruct (load_source w s locals σ) as [σ1 [locals1|e]] eqn:Hs.
  - intros H. apply IH in H as (-> & s' & b & Hin & Hnet & Hw).
    split; [done|]. exists s', b. split_and!; try done. by right.
  - intros [= -> ->]. apply load_source_SystemExit in Hs as (-> & b & Hnet & Hw).
    split; [done|]. exists s, b. split_and!; try done. by left.
Qed.

Lemma load_raises (w : world) (sources : list string) (σ σ' : state) (e : exc) :
  for_fold sources (load_source w) (∅, None) σ = (σ', Raise e) →
  load_adware_description_files w sources σ = (σ', Raise e).
Proof. intros H. unfold load_adware_description_files, bind. by rewrite H. Qed.

Lemma main_fetch_raises (w : world) (args : arguments) (σ σ' : state) (e : exc) :
  load_adware_description_files w NEFARIOUS_FILE_SOURCES (verbosity args σ) = (σ', Raise e) →
  main w args σ = (σ', Raise e).
Proof.
  intros H. unfold main, verbosity in *. unfold bind at 1.
  destruct (arg_verbose args); cbn [modify ret]; unfold bind at 1; by rewrite H.
Qed.

(** What the loop does at a source whose download succeeds and whose
    cache copy is refused, after the sources before it went through. *)
Lemma load_cache_refused (w : world) (fetched : list string) (source : string)
    (rest : list string) (body : string) (errno : Z) (σ σ1 : state)
    (locals : gset string * option string) :
  for_fold fetched (load_source w) (∅, None) σ = (σ1, Ok locals) →
  urlopen w source = inr body →
  refused w (Open_w (cache_file source)) = Some errno →
  load_adware_description_files w (fetched ++ source :: rest) σ
  = if bool_decide (errno = 13%Z)
    then (with_output [] ["Please run as root!"] (log_state (attempt_line source) σ1),
          Raise (SystemExit 13))
    else (log_state (attempt_line source) σ1,
          Raise (IOError errno (cache_file source))).
Proof.
  intros Hpre Hnet Hw.
  pose proof (fetch_cache_refused w source body errno locals.2 σ1 Hnet Hw) as Hf.
  destruct (bool_decide (errno = 13%Z)); apply load_raises;
    rewrite for_fold_app, Hpre; cbn [for_fold]; unfold bind at 1, load_source, bind;
    by rewrite Hf.
Qed.

(** C7, as the code has it.  When the download of a source succeeds and
    the write of its cache copy is refused with errno 13, the fetcher prints
    its request to run as root and leaves through [sys.exit(13)]: the sources
    after it are not touched, and [main] ends there with exit status 13.
    Status 13 is the only one the fetcher asks for, and it asks for it in
    this case only.  A cache write refused with another errno is raised
    again as the [IOError] it is; nothing catches it, and the interpreter
    ends with status 1. *)
Theorem cache_write_refused (w : world) (fetched : list string) (source : string)
    (rest : list string) (body : string) (errno : Z) (σ σ1 : state)
    (locals : gset string * option string) :
  for_fold fetched (load_source w) (∅, None) σ = (σ1, Ok locals) →
  urlopen w source = inr body →
  refused w (Open_w (cache_file source)) = Some errno →
  let run := load_adware_description_files w (fetched ++ source :: rest) σ in
  (errno = 13%Z →
     run = (with_output [] ["Please run as root!"] (log_state (attempt_line source) σ1),
            Raise (SystemExit 13))
     ∧ exit_status run.2 = 13%Z
     ∧ ((fetched ++ source :: rest)%list = NEFARIOUS_FILE_SOURCES →
        ∀ args σ0, σ = verbosity args σ0 →
          main w args σ0 = (run.1, Raise (SystemExit 13))))
  ∧ (errno ≠ 13%Z →
     run = (log_state (attempt_line source) σ1, Raise (IOError errno (cache_file source)))
     ∧ exit_status run.2 = 1%Z)
  ∧ (∀ sources' σ' σ'' n,
       load_adware_description_files w sources' σ' = (σ'', Raise (SystemExit n)) →
       n = 13%Z ∧ ∃ s b, s ∈ sources' ∧ urlopen w s = inr b
                       ∧ refused w (Open_w (cache_file s)) = Some 13%Z).
Proof.
  intros Hpre Hnet Hw run.
  pose proof (load_cache_refused w fetched source rest body errno σ σ1 locals
                Hpre Hnet Hw) as Hrun.
  fold run in Hrun. split_and!.
  - intros ->. rewrite Hrun. cbn. split_and!; [done..|].
    intros Hsrc args σ0 ->. apply main_fetch_raises.
    rewrite <- Hsrc. fold run. by rewrite Hrun.
  - intros Hne. rewrite Hrun. rewrite bool_decide_false by done. done.
  - intros sources' σ' σ'' n. unfold load_adware_description_files, bind.
    destruct (for_fold sources' (load_source w) (∅, None) σ') as [σ2 [l|e]] eqn:Hl;
      [done|].
    intros [= -> ->]. by apply load_loop_SystemExit in Hl.
Qed.

Lemma cache_write_refused_witness :
  load_adware_description_files (serving_world (Some 13%Z))
    (NEFARIOUS_FILE_SOURCES ++ ["http://lists.example/second"]) empty_state
  = (with_output [] ["Please run as root!"]
       (log_state (attempt_line "https://gist.githubusercontent.com/sheagcraig/5c76604f823d45792952/raw/8e8eaa9f69905265912ccc615949505558ff40f6/AppleAdwareList")
          empty_state),
     Raise (SystemExit 13)).
Proof.
  refine (proj1 (proj1 (cache_write_refused (serving_world (Some 13%Z)) []
    "https://gist.githubusercontent.com/sheagcraig/5c76604f823d45792952/raw/8e8eaa9f69905265912ccc615949505558ff40f6/AppleAdwareList"
    ["http://lists.example/second"] ("/opt/ad" +:+ nl) 13 empty_state empty_state
    (∅, None) _ _ _) _)); reflexivity.
Defined.

(** C7, counterexample.  The cache write fails with errno 28 (no space
    left on the device), not with a permission error; the fetcher raises
    the [IOError] again and the run ends with the non-zero status 1. *)
Lemma full_cache_exit_status :
  refused (serving_world (Some 28%Z)) (Open_w (cache_file "https://gist.githubusercontent.com/sheagcraig/5c76604f823d45792952/raw/8e8eaa9f69905265912ccc615949505558ff40f6/AppleAdwareList"))
  = Some 28%Z
  ∧ (load_adware_description_files (serving_world (Some 28%Z))
       NEFARIOUS_FILE_SOURCES empty_state).2
    = Raise (IOError 28 "/Library/Application Support/SavingThrow/AppleAdwareList")
  ∧ exit_status (main (serving_world (Some 28%Z)) no_arguments empty_state).2 = 1%Z.
Proof. vm_compute. done. Qed.

(** A source that is unreachable and has no cached copy, met while
    [adware_list] is still unbound, ends the loop with an
    [UnboundLocalError]: the sources after it are never tried. *)
Lemma load_unreachable_unbound (w : world) (source reason : string)
    (rest : list string) (σ : state) :
  urlopen w source = inl (Unreachable reason) →
  fs σ !! cache_file source = None →
  load_adware_description_files w (source :: rest) σ
  = (log_state (no_cache_line source)
       (log_state update_failed_line (log_state (attempt_line source) σ)),
     Raise (UnboundLocalError "adware_list")).
Proof.
  intros Hnet Hfs. apply load_raises. cbn [for_fold]. unfold bind at 1, load_source, bind.
  cbn [snd]. by rewrite (fetch_unreachable_no_cache w source reason None σ Hnet Hfs).
Qed.

(** The same source met after [adware_list] was bound by an earlier one:
    the text of the earlier source is split once more, which adds nothing
    new, and the loop goes on. *)
Lemma load_source_unreachable_bound (w : world) (source reason stale : string)
    (known : gset string) (σ : state) :
  urlopen w source = inl (Unreachable reason) →
  fs σ !! cache_file source = None →
  pieces stale ⊆ known →
  load_source w source (known, Some stale) σ
  = (log_state (no_cache_line source)
       (log_state update_failed_line (log_state (attempt_line source) σ)),
     Ok (known, Some stale)).
Proof.
  intros Hnet Hfs Hsub. unfold load_source, bind. cbn [snd fst].
  rewrite (fetch_unreachable_no_cache w source reason (Some stale) σ Hnet Hfs).
  unfold ret. do 3 f_equal. fold (pieces stale).
  apply set_eq. intros x. rewrite elem_of_union. split; [|by left].
  intros [?|?]; [done|]. by apply Hsub.
Qed.

(** C2, at its failing input.  With the one configured source unreachable
    and nothing in the cache, [load_adware_description_files] does not
    return the empty set: after its three log lines it raises
    [UnboundLocalError] for [adware_list]. *)
Theorem load_single_unreachable_source_raises :
  load_adware_description_files quiet_world NEFARIOUS_FILE_SOURCES empty_state
  = (with_output
       [attempt_line "https://gist.githubusercontent.com/sheagcraig/5c76604f823d45792952/raw/8e8eaa9f69905265912ccc615949505558ff40f6/AppleAdwareList";
        update_failed_line;
        no_cache_line "https://gist.githubusercontent.com/sheagcraig/5c76604f823d45792952/raw/8e8eaa9f69905265912ccc615949505558ff40f6/AppleAdwareList"]
       [] empty_state,
     Raise (UnboundLocalError "adware_list")).
Proof.
  unfold NEFARIOUS_FILE_SOURCES.
  by rewrite (load_unreachable_unbound quiet_world _ "no route to host" [] empty_state).
Qed.

(** *** Parsing the body (C9) *)

Lemma split_trailing_newline (text : string) :
  Py.endswith Py.newline text = true →
  ∃ init, init ≠ [] ∧ Py.split Py.newline text = (init ++ [""])%list.
Proof.
  induction text as [|c text IH]; [done|].
  destruct text as [|c' text'].
  - cbn. intros Hc%bool_decide_eq_true. subst c. by exists [""].
  - intros Hend. destruct (IH Hend) as (init & Hinit & Hsplit).
    change (Py.split Py.newline (String c (String c' text')))
      with (if decide (c = Py.newline) then "" :: Py.split Py.newline (String c' text')
            else match Py.split Py.newline (String c' text') with
                 | piece :: rest => String c piece :: rest
                 | [] => [String c ""]
                 end).
    rewrite Hsplit. destruct (decide (c = Py.newline)).
    + by exists ("" :: init).
    + destruct init as [|piece init]; [done|]. by exists (String c piece :: init).
Qed.

Lemma pieces_empty_string (text : string) :
  text = "" ∨ Py.endswith Py.newline text = true → "" ∈ pieces text.
Proof.
  unfold pieces. rewrite elem_of_list_to_set. intros [->|Hend].
  - cbn. by left.
  - destruct (split_trailing_newline text Hend) as (init & _ & ->).
    apply elem_of_app. right. by left.
Qed.

Lemma fetch_source_text (w : world) (source text : string)
    (adware_list : option string) (σ : state) :
  source_text w (fs σ) source = Some text →
  ∃ σ', fetch w source adware_list σ = (σ', Ok (Some text))
        ∧ fs σ' = cache_after w (fs σ) source.
Proof.
  unfold source_text, cache_after.
  destruct (urlopen w source) as [[reason|description]|body] eqn:Hnet; [| done |].
  - destruct (refused w (Open_r (cache_file source))) eqn:Hr; [done|].
    destruct (fs σ !! cache_file source) as [[cached|]|] eqn:Hfs; [|done..].
    intros [= <-]. eexists. split; [by eapply fetch_from_cache|done].
  - destruct (refused w (Open_w (cache_file source))) eqn:Hw; [done|].
    intros Htext. eexists. split.
    + rewrite (fetch_downloaded w source body) by
        (try done; intros Hd; by rewrite Hd in Htext).
      f_equal. f_equal. f_equal.
      by destruct (fs σ !! cache_file source) as [[]|]; simplify_eq.
    + done.
Qed.

Lemma for_fold_cons {X S} (x : X) (xs : list X) (body : X → S → M S) (acc : S)
    (σ : state) :
  for_fold (x :: xs) body acc σ
  = match body x acc σ with
    | (σ', Ok acc') => for_fold xs body acc' σ'
    | (σ', Raise e) => (σ', Raise e)
    end.
Proof. done. Qed.

Lemma load_source_bound (w : world) (source text : string)
    (locals : gset string * option string) (σ σ' : state) :
  fetch w source locals.2 σ = (σ', Ok (Some text)) →
  load_source w source locals σ = (σ', Ok (locals.1 ∪ pieces text, Some text)).
Proof. intros H. unfold load_source, bind. by rewrite H. Qed.

Lemma load_loop_source_texts (w : world) (sources : list string) (texts : list string)
    (known : gset string) (adware_list : option string) (σ : state) :
  source_texts w (fs σ) sources = Some texts →
  ∃ σ' bound,
    for_fold sources (load_source w) (known, adware_list) σ
    = (σ', Ok (known ∪ ⋃ (pieces <$> texts), bound)).
Proof.
  revert texts known adware_list σ.
  induction sources as [|s sources IH]; intros texts known al σ.
  - intros [= <-]. exists σ, al. cbn. unfold ret. do 3 f_equal.
    apply set_eq. intros x. rewrite elem_of_union. split; [by left|].
    intros [?|H]; [done|]. by apply elem_of_empty in H.
  - cbn [source_texts]. intros Htexts.
    destruct (source_text w (fs σ) s) as [text|] eqn:Htext; [|done].
    destruct (source_texts w (cache_after w (fs σ) s) sources) as [texts'|] eqn:Hrest;
      [|done].
    cbn in Htexts. injection Htexts as <-.
    destruct (fetch_source_text w s text al σ Htext) as (σ1 & Hfetch & Hfs).
    rewrite <- Hfs in Hrest.
    destruct (IH texts' (known ∪ pieces text) (Some text) σ1 Hrest) as (σ' & bound & Hloop).
    exists σ', bound. rewrite for_fold_cons.
    rewrite (load_source_bound w s text (known, al) σ σ1 Hfetch). cbn [fst].
    rewrite Hloop.
    do 3 f_equal. cbn [fmap list_fmap union_list foldr].
    apply set_eq. intros x. rewrite !elem_of_union. tauto.
Qed.

(** C9, as the code has it.  When every source yields a text, by download
    or from the cache, the returned set is the union of all the pieces of
    these texts between newlines.  No piece is discarded: a text that is
    empty or ends with a newline puts the empty string into the set. *)
Theorem load_keeps_every_piece (w : world) (sources texts : list string) (σ : state) :
  source_texts w (fs σ) sources = Some texts →
  ∃ σ', load_adware_description_files w sources σ = (σ', Ok (⋃ (pieces <$> texts)))
        ∧ ∀ text, text ∈ texts →
            text = "" ∨ Py.endswith Py.newline text = true →
            "" ∈ (⋃ (pieces <$> texts) : gset string).
Proof.
  intros Htexts.
  destruct (load_loop_source_texts w sources texts ∅ None σ Htexts) as (σ' & bound & Hloop).
  exists σ'. split.
  - unfold load_adware_description_files, bind. rewrite Hloop. unfold ret. cbn [fst].
    do 2 f_equal. apply set_eq. intros x. rewrite elem_of_union. split; [|by right].
    intros [H|?]; [|done]. by apply elem_of_empty in H.
  - intros text Hin Hshape. apply elem_of_union_list. exists (pieces text).
    split; [|by apply pieces_empty_string].
    apply list_elem_of_fmap. by exists text.
Qed.

Lemma load_keeps_every_piece_witness :
  ∃ σ', load_adware_description_files (serving_world None)
          ["http://lists.example/first"; "http://lists.example/second"] empty_state
        = (σ', Ok (⋃ (pieces <$> ["/opt/ad" +:+ nl; "/opt/ad" +:+ nl]))).
Proof.
  destruct (load_keeps_every_piece (serving_world None)
              ["http://lists.example/first"; "http://lists.example/second"]
              ["/opt/ad" +:+ nl; "/opt/ad" +:+ nl] empty_state) as (σ' & H & _).
  - vm_compute. reflexivity.
  - exists σ'. exact H.
Defined.

(** C9, counterexample.  The body is the single line [/opt/ad] with its
    terminating newline; the returned set holds the empty string next to
    the pattern. *)
Lemma load_returns_empty_pattern :
  (load_adware_description_files (serving_world None) NEFARIOUS_FILE_SOURCES empty_state).2
  = Ok {[ "/opt/ad"; "" ]}
  ∧ "" ∈ ({[ "/opt/ad"; "" ]} : gset string).
Proof.
  split; [vm_compute; reflexivity|].
  apply elem_of_union. right. by apply elem_of_singleton.
Qed.

(** ** The regular expression engine *)

Lemma repeat_greedy_complete (a : Re.atom) (k : list ascii → option Re.captures)
    (u v : list ascii) :
  accepted a u → is_Some (k v) → is_Some (Re.repeat_greedy a k (u ++ v)).
Proof.
  intros Hu Hk. induction Hu as [|c u Hc Hu IH].
  - destruct v as [|c v]; [done|]. cbn.
    destruct (Re.accepts a c); [|done].
    by destruct (Re.repeat_greedy a k v).
  - cbn. rewrite Hc. destruct IH as [m ->]. by exists m.
Qed.

Lemma repeat_greedy_none (a : Re.atom) (k : list ascii → option Re.captures)
    (u v : list ascii) :
  Re.repeat_greedy a k (u ++ v) = None → accepted a u → k v = None.
Proof.
  intros Hnone Hu. destruct (k v) as [m|] eqn:Hk; [|done].
  destruct (repeat_greedy_complete a k u v Hu) as [m' Hm']; [by rewrite Hk|].
  congruence.
Qed.

(** A greedy repetition returns the match of the longest repetition after
    which the rest of the pattern matches. *)
Lemma repeat_greedy_sound (a : Re.atom) (k : list ascii → option Re.captures)
    (s : list ascii) (m : Re.captures) :
  Re.repeat_greedy a k s = Some m →
  ∃ u v, s = u ++ v ∧ accepted a u ∧ k v = Some m
         ∧ ∀ u' v', s = u' ++ v' → accepted a u' → length u < length u' → k v' = None.
Proof.
  revert m. induction s as [|c s IH]; intros m.
  - cbn. intros Hk. exists [], []. split_and!; [done|constructor|done|].
    intros u' v' Heq _ Hlen. symmetry in Heq. apply app_eq_nil in Heq as [-> _].
    cbn in Hlen. lia.
  - cbn. destruct (Re.accepts a c) eqn:Hc.
    + destruct (Re.repeat_greedy a k s) as [m'|] eqn:Hr.
      * intros [= ->]. destruct (IH m eq_refl) as (u & v & -> & Hu & Hk & Hmax).
        exists (c :: u), v. split_and!; [done|by constructor|done|].
        intros u' v' Heq Hu' Hlen. destruct u' as [|c' u'']; [cbn in Hlen; lia|].
        injection Heq as <- Heq. inversion_clear Hu'.
        apply (Hmax u'' v'); [done|done|cbn in Hlen; lia].
      * intros Hk. exists [], (c :: s). split_and!; [done|constructor|done|].
        intros u' v' Heq Hu' Hlen. destruct u' as [|c' u'']; [cbn in Hlen; lia|].
        injection Heq as <- ->. inversion_clear Hu'.
        by apply (repeat_greedy_none a k u'' v').
    + intros Hk. exists [], (c :: s). split_and!; [done|constructor|done|].
      intros u' v' Heq Hu' Hlen. destruct u' as [|c' u'']; [cbn in Hlen; lia|].
      injection Heq as <- ->. inversion_clear Hu'. congruence.
Qed.

(** A run of single atoms consumes exactly as many characters. *)
Lemma match_at_ones (atoms : list Re.atom) (re' : list Re.item) (cs : Re.captures)
    (s : list ascii) (m : Re.captures) :
  Re.match_at ((Re.One <$> atoms) ++ re') cs s = Some m ↔
  ∃ x s', s = x ++ s' ∧ accepted_by atoms x ∧ Re.match_at re' cs s' = Some m.
Proof.
  revert s. induction atoms as [|a atoms IH]; intros s.
  - cbn [fmap list_fmap app]. split.
    + intros H. exists [], s. split_and!; [done|constructor|done].
    + intros (x & s' & -> & Hx & H). by inversion Hx.
  - cbn [fmap list_fmap app Re.match_at]. destruct s as [|c s].
    + split; [done|]. intros (x & s' & Heq & Hx & _). inversion Hx; subst. done.
    + destruct (Re.accepts a c) eqn:Hc.
      * rewrite IH. split.
        -- intros (x & s' & -> & Hx & H). exists (c :: x), s'.
           split_and!; [done|by constructor|done].
        -- intros (x & s' & Heq & Hx & H). inversion Hx as [|? c' ? x' ? Hx']; subst.
           injection Heq as -> ->. by exists x', s'.
      * split; [done|]. intros (x & s' & Heq & Hx & _).
        inversion Hx as [|? c' ? x' Hc' Hx']; subst. injection Heq as -> ->. congruence.
Qed.

Lemma accepted_by_literals (l x : list ascii) :
  accepted_by (Re.Lit <$> l) x → x = l.
Proof.
  revert x. induction l as [|c l IH]; intros x Hx; inversion Hx as [|? c' ? x' Hc Hx']; subst.
  - done.
  - cbn in Hc. apply bool_decide_eq_true in Hc as ->. f_equal. by apply IH.
Qed.

Lemma accepted_by_literals_refl (l : list ascii) : accepted_by (Re.Lit <$> l) l.
Proof.
  induction l as [|c l IH]; constructor; [|done]. cbn. by apply bool_decide_eq_true.
Qed.

Lemma search_from_sound (re : list Re.item) (s : list ascii) (m : Re.captures) :
  Re.search_from re s = Some m →
  ∃ p q, s = p ++ q ∧ Re.match_at re Re.no_captures q = Some m.
Proof.
  induction s as [|c s IH]; cbn.
  - destruct (Re.match_at re Re.no_captures []) eqn:H; [|done].
    intros [= ->]. by exists [], [].
  - destruct (Re.match_at re Re.no_captures (c :: s)) eqn:H.
    + intros [= ->]. by exists [], (c :: s).
    + intros (p & q & -> & Hq)%IH. by exists (c :: p), q.
Qed.

Lemma search_from_complete (re : list Re.item) (p q : list ascii) :
  is_Some (Re.match_at re Re.no_captures q) → is_Some (Re.search_from re (p ++ q)).
Proof.
  intros Hq. induction p as [|c p IH].
  - destruct q; cbn; destruct (Re.match_at re Re.no_captures _); done.
  - cbn. by destruct (Re.match_at re Re.no_captures (c :: p ++ q)).
Qed.

Lemma agent_regex_shape : agent_regex = Re.Many Re.AnyChar :: agent_tail.
Proof. reflexivity. Qed.

(** What follows the leading [.*] of [agent_regex] matches exactly the
    subjects [prefix ++ g ++ x ++ rest] with [g] free of newlines and [x]
    a path of the binary; group 1 is the longest such [g]. *)
Lemma agent_tail_sound (cs : Re.captures) (v : list ascii) (m : Re.captures) :
  Re.match_at agent_tail cs v = Some m →
  ∃ g x rest, v = agent_prefix ++ g ++ x ++ rest
              ∧ accepted Re.AnyChar g ∧ accepted_by agent_suffix x
              ∧ Re.group1 m = Some g.
Proof.
  unfold agent_tail. rewrite list_fmap_compose, match_at_ones.
  intros (lit & v1 & -> & Hlit & Hm). apply accepted_by_literals in Hlit as ->.
  cbn [Re.match_at] in Hm. apply repeat_greedy_sound in Hm as (g & v2 & -> & Hg & Hm & _).
  cbn [Re.match_at] in Hm.
  rewrite <- (app_nil_r (Re.One <$> agent_suffix)) in Hm.
  apply match_at_ones in Hm as (x & rest & -> & Hx & Hm).
  cbn in Hm. injection Hm as <-. exists g, x, rest. split_and!; try done.
  cbn. f_equal. rewrite length_app.
  replace (length g + length (x ++ rest) - length (x ++ rest)) with (length g) by lia.
  by rewrite take_app_length.
Qed.

Lemma agent_tail_complete (cs : Re.captures) (g x rest : list ascii) :
  accepted Re.AnyChar g → accepted_by agent_suffix x →
  is_Some (Re.match_at agent_tail cs (agent_prefix ++ g ++ x ++ rest)).
Proof.
  intros Hg Hx. unfold agent_tail. rewrite list_fmap_compose.
  assert (∀ o : option Re.captures, (∃ m, o = Some m) → is_Some o) as Hsome
    by (intros o [m ->]; eauto).
  destruct (repeat_greedy_complete Re.AnyChar
              (Re.match_at (Re.GroupClose :: (Re.One <$> agent_suffix))
                 (Re.open_group (g ++ x ++ rest) cs)) g (x ++ rest) Hg) as [m Hm].
  { cbn [Re.match_at]. apply Hsome. eexists.
    rewrite <- (app_nil_r (Re.One <$> agent_suffix)). apply match_at_ones.
    exists x, rest. split_and!; [done|done|]. reflexivity. }
  exists m. apply match_at_ones. exists agent_prefix, (g ++ x ++ rest).
  split_and!; [done|apply accepted_by_literals_refl|]. exact Hm.
Qed.

Lemma agent_regex_sound (q : list ascii) (m : Re.captures) :
  Re.match_at agent_regex Re.no_captures q = Some m →
  ∃ u g x rest, q = u ++ agent_prefix ++ g ++ x ++ rest
    ∧ accepted Re.AnyChar u ∧ accepted Re.AnyChar g ∧ accepted_by agent_suffix x
    ∧ Re.group1 m = Some g
    ∧ ∀ u' v', q = u' ++ v' → accepted Re.AnyChar u' → length u < length u' →
        Re.match_at agent_tail Re.no_captures v' = None.
Proof.
  rewrite agent_regex_shape. cbn [Re.match_at].
  intros (u & v & -> & Hu & Hm & Hmax)%repeat_greedy_sound.
  apply agent_tail_sound in Hm as (g & x & rest & -> & Hg & Hx & Hm).
  by exists u, g, x, rest.
Qed.

Lemma agent_regex_complete (p u g x rest : list ascii) :
  accepted Re.AnyChar u → accepted Re.AnyChar g → accepted_by agent_suffix x →
  is_Some (Re.search_from agent_regex (p ++ u ++ agent_prefix ++ g ++ x ++ rest)).
Proof.
  intros Hu Hg Hx. apply search_from_complete.
  rewrite agent_regex_shape. cbn [Re.match_at].
  apply repeat_greedy_complete; [done|]. by apply agent_tail_complete.
Qed.

(** *** Strings as lists of characters *)

Lemma list_ascii_app (a b : string) :
  list_ascii_of_string (a +:+ b) = list_ascii_of_string a ++ list_ascii_of_string b.
Proof.
  induction a as [|c a IH]; [done|]. rewrite string_app_cons. cbn. by rewrite IH.
Qed.

Lemma list_ascii_inj (a b : string) :
  list_ascii_of_string a = list_ascii_of_string b → a = b.
Proof.
  intros H. rewrite <- (string_of_list_ascii_of_string a), H.
  apply string_of_list_ascii_of_string.
Qed.

Lemma string_prefix_spec (a s : string) :
  String.prefix a s = true ↔ ∃ t, s = a +:+ t.
Proof.
  revert s. induction a as [|c a IH]; intros s.
  - split; [intros _; by exists s|]. intros _. by destruct s.
  - destruct s as [|c' s]; cbn.
    + split; [done|]. by intros (t & ?).
    + destruct (ascii_dec c c') as [->|Hne].
      * rewrite IH. split; intros (t & Ht); exists t.
        -- by rewrite string_app_cons, <- Ht.
        -- rewrite string_app_cons in Ht. by injection Ht.
      * split; [done|]. intros (t & Ht). rewrite string_app_cons in Ht. congruence.
Qed.

Lemma contains_spec (needle hay : string) :
  Py.contains needle hay = true ↔ ∃ pre post, hay = pre +:+ needle +:+ post.
Proof.
  induction hay as [|c hay IH].
  - change (Py.contains needle "") with (String.prefix needle "" || false).
    rewrite orb_false_r, string_prefix_spec. split.
    + intros (t & Ht). by exists "", t.
    + intros (pre & post & H). destruct pre; [by exists post|done].
  - change (Py.contains needle (String c hay))
      with (String.prefix needle (String c hay) || Py.contains needle hay).
    rewrite orb_true_iff, string_prefix_spec, IH. split.
    + intros [(t & Ht)|(pre & post & Ht)]; [by exists "", t|].
      exists (String c pre), post. by rewrite string_app_cons, <- Ht.
    + intros (pre & post & Ht). destruct pre as [|c' pre].
      * left. by exists post.
      * right. rewrite string_app_cons in Ht. injection Ht as -> ->. by exists pre, post.
Qed.

Lemma not_contains_list (needle hay : string) (x y : list ascii) :
  Py.contains needle hay = false →
  list_ascii_of_string hay ≠ x ++ list_ascii_of_string needle ++ y.
Proof.
  intros Hno Heq. apply not_true_iff_false in Hno. apply Hno, contains_spec.
  exists (string_of_list_ascii x), (string_of_list_ascii y).
  apply list_ascii_inj.
  by rewrite !list_ascii_app, !list_ascii_of_string_of_list_ascii.
Qed.

(** *** Where the marker [/Agent/agent] can stand *)

Lemma bounded_check (n : nat) (check : nat → bool) :
  forallb check (seq 0 n) = true → ∀ e, e < n → check e = true.
Proof.
  intros Hall e He. rewrite forallb_forall in Hall. apply Hall.
  apply in_seq. lia.
Qed.

(** Inside the path itself the first three characters of the marker are
    found at offset 46 only, right after the directory and the name. *)
Lemma marker_in_binary (e : nat) :
  e < 83 →
  list_ascii_of_string foobar_binary !! e = Some "/"%char →
  (e + 2 < 83
   ∧ (list_ascii_of_string foobar_binary !! (e + 1) = Some "A"%char →
      list_ascii_of_string foobar_binary !! (e + 2) = Some "g"%char → e = 46)).
Proof.
  intros He H0.
  pose (check := λ e : nat,
    implb (bool_decide (list_ascii_of_string foobar_binary !! e = Some "/"%char))
      (bool_decide (e + 2 < 83) &&
       implb (bool_decide (list_ascii_of_string foobar_binary !! (e + 1) = Some "A"%char)
              && bool_decide (list_ascii_of_string foobar_binary !! (e + 2) = Some "g"%char))
             (bool_decide (e = 46)))).
  assert (Hcheck : check e = true).
  { apply (bounded_check 83); [|done]. vm_compute. reflexivity. }
  unfold check in Hcheck. rewrite (bool_decide_true _ H0) in Hcheck. cbn in Hcheck.
  apply andb_true_iff in Hcheck as [Hlt Himp]. apply bool_decide_eq_true in Hlt.
  split; [done|]. intros H1 H2.
  rewrite (bool_decide_true _ H1), (bool_decide_true _ H2) in Himp. cbn in Himp.
  by apply bool_decide_eq_true in Himp.
Qed.

Lemma lookup_app_plus (l1 l2 : list ascii) (i : nat) :
  (l1 ++ l2) !! (length l1 + i) = l2 !! i.
Proof. rewrite lookup_app_r by lia. f_equal. lia. Qed.

Lemma marker_position (P Q x y : list ascii) :
  (∀ x' y', P ≠ x' ++ list_ascii_of_string agent_marker ++ y') →
  (∀ x' y', Q ≠ x' ++ list_ascii_of_string agent_marker ++ y') →
  P ++ list_ascii_of_string foobar_binary ++ Q
  = x ++ list_ascii_of_string agent_marker ++ y →
  length x = length P + 46.
Proof.
  intros HP HQ Heq.
  set (A := list_ascii_of_string agent_marker) in *.
  set (B := list_ascii_of_string foobar_binary) in *.
  assert (HA : length A = 12) by done.
  assert (HB : length B = 83) by done.
  destruct (decide (length x + 12 ≤ length P)%nat) as [H1|H1].
  { exfalso. apply (HP x (drop (length x + 12) P)).
    rewrite <- (take_drop (length x + 12) P) at 1. rewrite (assoc_L (++)). f_equal.
    rewrite <- (take_app_le P (B ++ Q)) by done. rewrite Heq, (assoc_L (++)).
    apply take_app_length'. rewrite length_app. lia. }
  destruct (decide (length P + 83 ≤ length x)%nat) as [H2|H2].
  { exfalso. apply (HQ (drop (length P + 83) x) y).
    rewrite <- (drop_app_length' (P ++ B) Q (length P + 83)) at 1
      by (rewrite length_app; lia).
    rewrite <- (assoc_L (++)), Heq. by rewrite drop_app_le. }
  destruct (decide (length x < length P)) as [H3|H3].
  - exfalso.
    assert (Hd0 : (A ++ y) !! (length P - length x) = Some "/"%char).
    { rewrite <- (lookup_app_plus x), <- Heq.
      replace (length x + (length P - length x)) with (length P + 0) by lia.
      by rewrite lookup_app_plus. }
    assert (Hd1 : (A ++ y) !! (length P - length x + 1) = Some "L"%char).
    { rewrite <- (lookup_app_plus x), <- Heq.
      replace (length x + (length P - length x + 1)) with (length P + 1) by lia.
      by rewrite lookup_app_plus. }
    assert (Hd : (1 ≤ length P - length x ≤ 11)%nat) by lia.
    revert Hd0 Hd1 Hd. generalize (length P - length x). intros d Hd0 Hd1 Hd.
    do 12 (destruct d as [|d]; [cbn in Hd0, Hd1; first [lia | discriminate]|]). lia.
  - assert (He : length x - length P < 83) by lia.
    assert (Hlook : ∀ j, (B ++ Q) !! (length x - length P + j) = (A ++ y) !! j).
    { intros j. rewrite <- (lookup_app_plus P), Heq.
      replace (length P + (length x - length P + j)) with (length x + j) by lia.
      by rewrite lookup_app_plus. }
    assert (Hkey : ∀ e, e < 83 → (∀ j, (B ++ Q) !! (e + j) = (A ++ y) !! j) → e = 46).
    { clear. intros e He Hlook.
      pose proof (Hlook 0) as H0. rewrite Nat.add_0_r, lookup_app_l in H0 by done.
      destruct (marker_in_binary e He H0) as [Hlt Hpos].
      apply Hpos.
      - rewrite <- (lookup_app_l _ Q) by (cbn; lia). by rewrite Hlook.
      - rewrite <- (lookup_app_l _ Q) by (cbn; lia). by rewrite Hlook. }
    specialize (Hkey _ He Hlook). lia.
Qed.

(** *** The search in a file that launches the binary *)

Lemma foobar_binary_parts :
  list_ascii_of_string foobar_binary
  = agent_prefix ++ list_ascii_of_string foobar_name
    ++ list_ascii_of_string "/Agent/agent.app/Contents/MacOS/agent".
Proof. reflexivity. Qed.

Lemma foobar_name_accepted : accepted Re.AnyChar (list_ascii_of_string foobar_name).
Proof. repeat constructor. Qed.

Lemma agent_prefix_accepted : accepted Re.AnyChar agent_prefix.
Proof. repeat constructor. Qed.

Lemma foobar_suffix_accepted :
  accepted_by agent_suffix (list_ascii_of_string "/Agent/agent.app/Contents/MacOS/agent").
Proof. repeat constructor. Qed.

Lemma foobar_name_no_slash (k : nat) :
  list_ascii_of_string foobar_name !! k ≠ Some "/"%char.
Proof.
  do 17 (destruct k as [|k]; [discriminate|]). discriminate.
Qed.

Lemma agent_suffix_marker (x : list ascii) :
  accepted_by agent_suffix x → ∃ x', x = list_ascii_of_string agent_marker ++ x'.
Proof.
  change agent_suffix with
    ((Re.Lit <$> list_ascii_of_string agent_marker) ++
     (Re.atom_of <$> list_ascii_of_string ".app/Contents/MacOS/agent")).
  intros (x1 & x2 & H1 & _ & ->)%Forall2_app_inv_l.
  apply accepted_by_literals in H1 as ->. by exists x2.
Qed.

(** A file that contains the path has a match. *)
Lemma search_contains_binary (content : string) :
  Py.contains foobar_binary content = true →
  is_Some (Re.search agent_regex content).
Proof.
  intros (pre & post & ->)%contains_spec. unfold Re.search.
  rewrite !list_ascii_app, foobar_binary_parts, <- !(assoc_L (++)).
  apply (agent_regex_complete _ []);
    [constructor | apply foobar_name_accepted | apply foobar_suffix_accepted].
Qed.

(** When the marker stands nowhere else in the file, group 1 is the
    name in the path. *)
Lemma search_binary_alone (pre post : string) :
  Py.contains agent_marker pre = false →
  Py.contains agent_marker post = false →
  ∃ m, Re.search agent_regex (pre +:+ foobar_binary +:+ post) = Some m
       ∧ Re.group_1 m = Some foobar_name.
Proof.
  intros Hpre Hpost.
  destruct (search_contains_binary (pre +:+ foobar_binary +:+ post)) as [m Hm].
  { apply contains_spec. by exists pre, post. }
  exists m. split; [done|]. unfold Re.search in Hm. rewrite !list_ascii_app in Hm.
  set (P := list_ascii_of_string pre) in *. set (Q := list_ascii_of_string post) in *.
  set (N := list_ascii_of_string foobar_name).
  apply search_from_sound in Hm as (p & q & Hc & Hm).
  apply agent_regex_sound in Hm as (u & g & x & rest & -> & Hu & Hg & Hx & Hm & Hmax).
  apply agent_suffix_marker in Hx as (x' & ->).
  assert (Hlen : length (p ++ u ++ agent_prefix ++ g) = length P + 46).
  { apply (marker_position P Q _ (x' ++ rest)).
    - intros ??. by apply not_contains_list.
    - intros ??. by apply not_contains_list.
    - rewrite Hc. by rewrite <- !(assoc_L (++)). }
  assert (HlenN : length N = 17) by done.
  assert (HlenA : length agent_prefix = 29) by done.
  assert (Hprefix : p ++ u ++ agent_prefix ++ g = P ++ agent_prefix ++ N).
  { apply (app_inj_1 _ _ ((list_ascii_of_string agent_marker ++ x') ++ rest)
             (list_ascii_of_string "/Agent/agent.app/Contents/MacOS/agent" ++ Q)).
    - rewrite Hlen, !length_app, HlenA, HlenN. lia.
    - rewrite <- !(assoc_L (++)). rewrite <- !(assoc_L (++)) in Hc. rewrite <- Hc.
      by rewrite foobar_binary_parts, <- !(assoc_L (++)). }
  rewrite !length_app, HlenA in Hlen.
  unfold Re.group_1. rewrite Hm. cbn. f_equal.
  destruct (decide (length g = 17)) as [Heq|Hne].
  - rewrite (assoc_L (++) p), (assoc_L (++) (p ++ u)), (assoc_L (++) P) in Hprefix.
    apply app_inj_2 in Hprefix as [_ ->]; [done|lia].
  - exfalso. destruct (decide (length g < 17)) as [Hlt|Hge].
    + apply (foobar_name_no_slash (16 - length g)). fold N.
      rewrite <- (lookup_app_plus agent_prefix), <- (lookup_app_plus P).
      rewrite <- Hprefix.
      replace (length P + (length agent_prefix + (16 - length g)))
        with (length p + (length u + 28)) by lia.
      rewrite lookup_app_plus, lookup_app_plus. by rewrite lookup_app_l by (rewrite HlenA; lia).
    + assert (Hk : length P - length p = length u + (length g - 17)) by lia.
      assert (Hq : u ++ agent_prefix ++ g ++ (list_ascii_of_string agent_marker ++ x') ++ rest
                   = take (length P - length p) (u ++ agent_prefix ++ g)
                     ++ list_ascii_of_string foobar_binary ++ Q).
      { assert (HP : P = p ++ take (length P - length p) (u ++ agent_prefix ++ g)).
        { apply (f_equal (take (length P))) in Hprefix.
          rewrite take_app_length, take_app in Hprefix.
          rewrite (take_ge p) in Hprefix by lia. done. }
        rewrite HP in Hc at 1. rewrite <- (assoc_L (++)) in Hc.
        by apply app_inv_head in Hc. }
      specialize (Hmax _ _ Hq).
      destruct (agent_tail_complete Re.no_captures N
                  (list_ascii_of_string "/Agent/agent.app/Contents/MacOS/agent") Q
                  foobar_name_accepted foobar_suffix_accepted) as [m' Hm'].
      rewrite foobar_binary_parts, <- !(assoc_L (++)) in Hmax. fold N in Hmax.
      rewrite Hmax in Hm'; [done| |].
      * apply Forall_take. unfold accepted in *.
        rewrite !Forall_app. split_and!; [done|apply agent_prefix_accepted|done].
      * rewrite length_take, !length_app. lia.
Qed.

(** ** The heuristic detector (C1, C3) *)

Lemma examine_readable (w : world) (σ : state) (candidate text : string)
    (result : gset string) :
  read_text w σ candidate = Some text →
  examine w candidate result σ = (σ, Ok (result ∪ contribution w σ candidate)).
Proof.
  unfold read_text, contribution, read_text, examine, bind, Os.open_read.
  destruct (refused w (Open_r candidate)); [done|].
  destruct (fs σ !! candidate) as [[content|]|]; [|done..].
  intros Heq. injection Heq as ->.
  change (Some text ≫= Re.search agent_regex) with (Re.search agent_regex text).
  destruct (Re.search agent_regex text) as [m|].
  - change (Some m ≫= Re.group_1) with (Re.group_1 m).
    unfold ret. do 2 f_equal. apply set_eq. intros x.
    rewrite !elem_of_union. tauto.
  - unfold ret. do 2 f_equal. apply set_eq. intros x.
    rewrite elem_of_union, elem_of_empty. tauto.
Qed.

Lemma examine_unreadable (w : world) (σ : state) (candidate : string)
    (result : gset string) :
  read_text w σ candidate = None →
  ∃ errno, examine w candidate result σ = (σ, Raise (IOError errno candidate)).
Proof.
  unfold read_text, examine, bind, Os.open_read.
  destruct (refused w (Open_r candidate)) as [n|]; [by exists n|].
  destruct (fs σ !! candidate) as [[content|]|]; [done|by eexists..].
Qed.

Lemma scan_readable (w : world) (σ : state) (candidates : list string)
    (result : gset string) :
  (∀ c, c ∈ candidates → is_Some (read_text w σ c)) →
  for_fold candidates (examine w) result σ
  = (σ, Ok (result ∪ ⋃ (contribution w σ <$> candidates))).
Proof.
  revert result. induction candidates as [|c candidates IH]; intros result Hall.
  - cbn. unfold ret. do 2 f_equal. apply set_eq. intros x.
    rewrite elem_of_union, elem_of_empty. tauto.
  - destruct (Hall c) as [text Htext]; [by left|].
    rewrite for_fold_cons, (examine_readable w σ c text) by done.
    rewrite IH by (intros c' Hc'; apply Hall; by right).
    do 2 f_equal. cbn [fmap list_fmap union_list foldr].
    apply set_eq. intros x. rewrite !elem_of_union. tauto.
Qed.

Lemma scan_unreadable (w : world) (σ : state) (candidates : list string)
    (result : gset string) (c : string) :
  c ∈ candidates → read_text w σ c = None →
  ∃ errno path, for_fold candidates (examine w) result σ
                = (σ, Raise (IOError errno path))
                ∧ read_text w σ path = None.
Proof.
  revert result. induction candidates as [|c' candidates IH]; intros result Hin Hc.
  - by apply elem_of_nil in Hin.
  - rewrite for_fold_cons. destruct (read_text w σ c') as [text|] eqn:Hc'.
    + rewrite (examine_readable w σ c' text) by done.
      apply IH; [|done]. apply elem_of_cons in Hin as [->|Hin]; [congruence|done].
    + destruct (examine_unreadable w σ c' result Hc') as [errno ->]. by exists errno, c'.
Qed.

Lemma agent_world_candidates : projectx_candidates agent_world = {[ foobar_plist ]}.
Proof. vm_compute. reflexivity. Qed.

Lemma get_projectX_files_readable (w : world) (σ : state) :
  iteration_ok w →
  (∀ c, c ∈ projectx_candidates w → is_Some (read_text w σ c)) →
  get_projectX_files w σ
  = (σ, Ok (⋃ (contribution w σ <$> iteration w (projectx_candidates w)))).
Proof.
  intros Hw Hall. unfold get_projectX_files. rewrite scan_readable.
  - do 2 f_equal. apply set_eq. intros x. rewrite elem_of_union, elem_of_empty. tauto.
  - intros c Hc. apply Hall. by apply (iteration_elem_of w).
Qed.

(** C3, as the code has it.  Reading a candidate is not guarded: when one
    of the candidates cannot be read, [get_projectX_files] raises the
    [IOError] of a candidate it could not read and returns no set.  When all
    of them can be read it returns what the matching candidates contribute,
    and a candidate without a match contributes nothing. *)
Theorem unreadable_candidate_aborts_scan (w : world) (σ : state) :
  iteration_ok w →
  (∀ c, c ∈ projectx_candidates w → read_text w σ c = None →
     ∃ errno path, get_projectX_files w σ = (σ, Raise (IOError errno path))
                   ∧ read_text w σ path = None)
  ∧ ((∀ c, c ∈ projectx_candidates w → is_Some (read_text w σ c)) →
     get_projectX_files w σ
     = (σ, Ok (⋃ (contribution w σ <$> iteration w (projectx_candidates w))))
     ∧ ∀ c text, read_text w σ c = Some text →
         Re.search agent_regex text = None → contribution w σ c = ∅).
Proof.
  intros Hw. split.
  - intros c Hc Hread. apply (scan_unreadable w σ _ ∅ c); [|done].
    by apply iteration_elem_of.
  - intros Hall. split; [by apply get_projectX_files_readable|].
    intros c text Htext Hno. unfold contribution. rewrite Htext.
    change (Some text ≫= Re.search agent_regex) with (Re.search agent_regex text).
    by rewrite Hno.
Qed.

Lemma unreadable_candidate_aborts_scan_witness :
  (∃ errno path, get_projectX_files agent_world empty_state
                 = (empty_state, Raise (IOError errno path)))
  ∧ get_projectX_files agent_world (state_of {[ foobar_plist := File "<dict/>" ]})
    = (state_of {[ foobar_plist := File "<dict/>" ]}, Ok ∅).
Proof.
  split.
  - destruct (proj1 (unreadable_candidate_aborts_scan agent_world empty_state
                       (iteration_elements_ok agent_world eq_refl)) foobar_plist)
      as (errno & path & H & _).
    + rewrite agent_world_candidates; by apply elem_of_singleton.
    + vm_compute; reflexivity.
    + by exists errno, path.
  - destruct (proj2 (unreadable_candidate_aborts_scan agent_world
                       (state_of {[ foobar_plist := File "<dict/>" ]})
                       (iteration_elements_ok agent_world eq_refl))) as [H _].
    + intros c Hc. rewrite agent_world_candidates in Hc.
      apply elem_of_singleton in Hc as ->. vm_compute; eauto.
    + rewrite H. vm_compute; reflexivity.
Defined.

(** C3, counterexample.  The one candidate is a dangling link: the scan is
    not continued past it, the function raises. *)
Lemma dangling_candidate_raises :
  foobar_plist ∈ projectx_candidates agent_world
  ∧ get_projectX_files agent_world empty_state
    = (empty_state, Raise (IOError 2 foobar_plist)).
Proof.
  split; [|vm_compute; reflexivity].
  rewrite agent_world_candidates. by apply elem_of_singleton.
Qed.

Lemma search_group_participates (content : string) (m : Re.captures) :
  Re.search agent_regex content = Some m → is_Some (Re.group_1 m).
Proof.
  unfold Re.search. intros (p & q & _ & Hm)%search_from_sound.
  apply agent_regex_sound in Hm as (u & g & x & rest & _ & _ & _ & _ & Hg & _).
  unfold Re.group_1. rewrite Hg. by eexists.
Qed.

Lemma contribution_found (w : world) (σ : state) (c : string) (x : string) :
  iteration_ok w → c ∈ projectx_candidates w → x ∈ contribution w σ c →
  x ∈ (⋃ (contribution w σ <$> iteration w (projectx_candidates w)) : gset string).
Proof.
  intros Hw Hc Hx. apply elem_of_union_list. exists (contribution w σ c).
  split; [|done]. apply list_elem_of_fmap. exists c. split; [done|].
  by apply iteration_elem_of.
Qed.

Lemma contribution_match (w : world) (σ : state) (c content : string) (m : Re.captures) :
  read_text w σ c = Some content → Re.search agent_regex content = Some m →
  contribution w σ c
  = {[ c; "/Library/Application Support/" +:+ percent_s (Re.group_1 m) ]}.
Proof.
  intros Hread Hm. unfold contribution. rewrite Hread.
  change (Some content ≫= Re.search agent_regex) with (Re.search agent_regex content).
  by rewrite Hm.
Qed.

(** C1, as the code has it.  When every candidate can be read, the
    detector returns a set, and for a candidate whose content has a match of
    the regular expression the set holds the candidate's own path and
    [/Library/Application Support/<capture>], where the capture is group 1 of
    the leftmost match, with greedy repetitions.  A candidate whose content
    contains the path of the binary below [com.foobar123.mac] has a match, so
    its own path is in the set; when [/Agent/agent] stands nowhere else in
    the content, the capture is [com.foobar123.mac] and the set holds
    [/Library/Application Support/com.foobar123.mac] as well. *)
Theorem detector_adds_file_and_directory (w : world) (σ : state) (c content : string) :
  iteration_ok w →
  (∀ c', c' ∈ projectx_candidates w → is_Some (read_text w σ c')) →
  c ∈ projectx_candidates w →
  read_text w σ c = Some content →
  ∃ found, get_projectX_files w σ = (σ, Ok found)
    ∧ (∀ m, Re.search agent_regex content = Some m →
         ∃ capture, Re.group_1 m = Some capture ∧ c ∈ found
                    ∧ "/Library/Application Support/" +:+ capture ∈ found)
    ∧ (Py.contains foobar_binary content = true → c ∈ found)
    ∧ (∀ pre post, content = pre +:+ foobar_binary +:+ post →
         Py.contains agent_marker pre = false →
         Py.contains agent_marker post = false →
         c ∈ found ∧ foobar_directory ∈ found).
Proof.
  intros Hw Hall Hc Hread.
  pose proof (get_projectX_files_readable w σ Hw Hall) as Hrun.
  eexists. split; [exact Hrun|].
  assert (Hmatch : ∀ m, Re.search agent_regex content = Some m →
            ∃ capture, Re.group_1 m = Some capture
              ∧ c ∈ (⋃ (contribution w σ <$> iteration w (projectx_candidates w)) : gset string)
              ∧ "/Library/Application Support/" +:+ capture
                ∈ (⋃ (contribution w σ <$> iteration w (projectx_candidates w)) : gset string)).
  { intros m Hm. destruct (search_group_participates content m Hm) as [capture Hcap].
    exists capture. split; [done|].
    pose proof (contribution_match w σ c content m Hread Hm) as Hcontr.
    rewrite Hcap in Hcontr.
    split; apply (contribution_found w σ c); try done; rewrite Hcontr;
      apply elem_of_union; [left|right]; by apply elem_of_singleton. }
  split_and!.
  - exact Hmatch.
  - intros Hcontains. destruct (search_contains_binary content Hcontains) as [m Hm].
    by destruct (Hmatch m Hm) as (capture & _ & Hin & _).
  - intros pre post -> Hpre Hpost.
    destruct (search_binary_alone pre post Hpre Hpost) as (m & Hm & Hcap).
    destruct (Hmatch m Hm) as (capture & Hcap' & Hin & Hdir).
    rewrite Hcap in Hcap'. injection Hcap' as <-. done.
Qed.

Lemma detector_adds_file_and_directory_witness :
  ∃ found,
    get_projectX_files agent_world (state_of {[ foobar_plist := File job_plain ]})
    = (state_of {[ foobar_plist := File job_plain ]}, Ok found)
    ∧ foobar_plist ∈ found ∧ foobar_directory ∈ found.
Proof.
  destruct (detector_adds_file_and_directory agent_world
              (state_of {[ foobar_plist := File job_plain ]}) foobar_plist job_plain
              (iteration_elements_ok agent_world eq_refl))
    as (found & Hrun & _ & _ & Halone).
  - intros c Hc. rewrite agent_world_candidates in Hc.
    apply elem_of_singleton in Hc as ->. vm_compute. eauto.
  - rewrite agent_world_candidates. by apply elem_of_singleton.
  - vm_compute. reflexivity.
  - exists found. split; [exact Hrun|].
    apply (Halone ("<key>ProgramArguments</key>" +:+ nl +:+ "<array><string>")
                  ("</string></array>" +:+ nl)); vm_compute; reflexivity.
Defined.

(** C1, counterexample.  The job names two binaries on one line.  The
    content contains the path below [com.foobar123.mac], yet the greedy
    [.*] in front of the directory runs up to the last path of the line:
    the set holds the directory of the other name and not
    [/Library/Application Support/com.foobar123.mac]. *)
Lemma greedy_capture_takes_last_path :
  Py.contains foobar_binary job_one_line = true
  ∧ get_projectX_files agent_world (state_of {[ foobar_plist := File job_one_line ]})
    = (state_of {[ foobar_plist := File job_one_line ]},
       Ok {[ foobar_plist; "/Library/Application Support/com.other.mac" ]})
  ∧ foobar_directory ∉ ({[ foobar_plist; "/Library/Application Support/com.other.mac" ]}
                          : gset string).
Proof.
  split_and!; [vm_compute; reflexivity..|].
  rewrite not_elem_of_union, !not_elem_of_singleton. split; discriminate.
Qed.

(** ** The remediator: [remove] (C5) *)

Lemma for_each_cons {X} (x : X) (xs : list X) (body : X → M unit) (σ : state) :
  for_each (x :: xs) body σ
  = match body x σ with
    | (σ', Ok _) => for_each xs body σ'
    | (σ', Raise e) => (σ', Raise e)
    end.
Proof. done. Qed.





(** ** The remediator: [quarantine] (C4) *)

(** *** The name of the directory *)

Lemma zero_pad2_digits (n : nat) (rest : string) :
  n < 100 → Py.zero_pad2 n +:+ rest = two_digits n rest.
Proof.
  intros Hn.
  pose (check := λ n, bool_decide (Py.zero_pad2 n = two_digits n "")).
  assert (Hcheck : check n = true).
  { apply (bounded_check 100); [|done]. vm_compute. reflexivity. }
  apply bool_decide_eq_true in Hcheck. rewrite Hcheck. reflexivity.
Qed.

Lemma pretty_N_char_digit (x : N) :
  (x < 10)%N → pretty_N_char x = digit (N.to_nat x).
Proof.
  intros Hx. destruct x as [|p]; [done|].
  do 4 (try destruct p as [p|p|]; try reflexivity; try lia).
Qed.

Lemma to_nat_digit (n : nat) (d : N) :
  N.to_nat (N.of_nat n / d mod 10) = (n / N.to_nat d mod 10)%nat.
Proof. by rewrite N2Nat.inj_mod, N2Nat.inj_div, Nat2N.id. Qed.

Lemma year_digits (n : nat) (rest : string) :
  (1000 ≤ Z.of_nat n < 10000)%Z → Py.str_of_nat n +:+ rest = four_digits n rest.
Proof.
  intros Hn. unfold Py.str_of_nat, pretty, pretty_nat, pretty, pretty_N.
  destruct (decide (N.of_nat n = 0%N)) as [H0|_]; [lia|].
  assert (Hlt : (N.of_nat n < 10000)%N) by lia.
  do 4 (rewrite pretty_N_go_step
          by first [lia | rewrite ?N.Div0.div_div; apply N.div_str_pos; lia]).
  rewrite !N.Div0.div_div.
  rewrite (N.div_small _ (10 * 10 * 10 * 10)) by exact Hlt.
  rewrite pretty_N_go_0.
  rewrite !pretty_N_char_digit by (apply N.mod_lt; lia).
  rewrite <- (N.div_1_r (N.of_nat n)) at 4.
  rewrite !to_nat_digit. unfold four_digits, two_digits. rewrite !string_app_cons.
  change (N.to_nat (10 * 10 * 10)) with 1000. change (N.to_nat (10 * 10)) with 100.
  change (N.to_nat 10) with 10. change (N.to_nat 1) with 1. by rewrite Nat.div_1_r.
Qed.

Lemma strftime_timestamp (t : Py.tm) :
  tm_ok t → Py.strftime timestamp_format t = timestamp t.
Proof.
  intros (Hy & Hm & Hd & HH & HM & HS). pose proof Hy as Hy'.
  unfold timestamp_format, timestamp.
  change (Py.strftime "%Y%m%d-%H%M%S" t)
    with (Py.str_of_nat (Py.tm_year t) +:+ (Py.zero_pad2 (Py.tm_mon t) +:+
          (Py.zero_pad2 (Py.tm_mday t) +:+ String "-"%char (Py.zero_pad2 (Py.tm_hour t) +:+
          (Py.zero_pad2 (Py.tm_min t) +:+ (Py.zero_pad2 (Py.tm_sec t) +:+ "")))))).
  rewrite year_digits by lia. rewrite !zero_pad2_digits by lia. done.
Qed.

(** *** Paths below a directory *)

Lemma under_spec (d p : string) :
  Py.under d p = true ↔ p = d ∨ ∃ t, p = d +:+ "/" +:+ t.
Proof.
  unfold Py.under. rewrite orb_true_iff, bool_decide_eq_true, string_prefix_spec.
  split; (intros [?|(t & Ht)]; [by left|right; exists t]);
    by rewrite ?string_app_assoc in *.
Qed.

Lemma under_refl (d : string) : Py.under d d = true.
Proof. apply under_spec. by left. Qed.

Lemma under_trans (a b c : string) :
  Py.under a b = true → Py.under b c = true → Py.under a c = true.
Proof.
  rewrite !under_spec. intros [->|(t & ->)] [->|(t' & ->)]; eauto.
  right. exists (t +:+ "/" +:+ t'). by rewrite !string_app_assoc.
Qed.

Lemma string_app_inv_head (a b c : string) : a +:+ b = a +:+ c → b = c.
Proof. apply String.app_inj. Qed.

Lemma split_no_separator (sep : ascii) (s piece : string) :
  piece ∈ Py.split sep s → sep ∉ list_ascii_of_string piece.
Proof.
  revert piece. induction s as [|c s IH]; intros piece.
  - cbn. intros ->%list_elem_of_singleton. apply not_elem_of_nil.
  - cbn [Py.split]. destruct (decide (c = sep)) as [->|Hne].
    + intros [->|Hin]%elem_of_cons; [apply not_elem_of_nil|by apply IH].
    + destruct (Py.split sep s) as [|first rest] eqn:Hsplit.
      * intros ->%list_elem_of_singleton. cbn.
        intros [->|Hin%elem_of_nil]%elem_of_cons; done.
      * intros [->|Hin]%elem_of_cons.
        -- cbn. intros [->|Hin]%elem_of_cons; [done|].
           revert Hin. apply IH. by left.
        -- apply IH. by right.
Qed.

Lemma join_child (d b : string) :
  d ≠ "" → Py.endswith Py.slash d = false → no_slash b →
  Py.join d b = d +:+ "/" +:+ b.
Proof.
  intros Hd Hend Hb. unfold Py.join.
  assert (Py.startswith Py.slash b = false) as ->.
  { destruct b as [|c b]; [done|]. cbn. apply bool_decide_eq_false. intros ->.
    apply Hb. by left. }
  rewrite Hend, bool_decide_false by done. done.
Qed.

Lemma digit_not_slash (k : nat) : k < 10 → digit k ≠ Py.slash.
Proof. intros Hk. do 10 (destruct k as [|k]; [discriminate|]). lia. Qed.

(** With a local time of the clock, the directory is the cache root, a
    slash and the fifteen characters of the timestamp. *)
Lemma backup_dir_shape (w : world) :
  tm_ok (localtime w) →
  backup_dir_of w = CACHE +:+ "/" +:+ timestamp (localtime w)
  ∧ backup_dir_of w ≠ ""
  ∧ Py.endswith Py.slash (backup_dir_of w) = false.
Proof.
  intros Hok. unfold backup_dir_of. rewrite strftime_timestamp by done.
  assert (Hjoin : Py.join CACHE (timestamp (localtime w))
                  = CACHE +:+ "/" +:+ timestamp (localtime w)).
  { unfold Py.join, timestamp, four_digits. cbn [Py.startswith].
    rewrite bool_decide_false; [done|].
    apply digit_not_slash, Nat.mod_upper_bound. lia. }
  rewrite Hjoin. split_and!; [done|done|].
  unfold timestamp, four_digits, two_digits.
  vm_compute (CACHE +:+ "/"). cbn [String.append Py.endswith].
  apply bool_decide_eq_false, digit_not_slash, Nat.mod_upper_bound. lia.
Qed.

(** *** The file system operations *)

Lemma without_lookup (d : string) (m : gmap string node) (k : string) :
  Os.without d m !! k = if Py.under d k then None else m !! k.
Proof.
  unfold Os.without. destruct (Py.under d k) eqn:Hu.
  - apply map_lookup_filter_None. right. intros v _ Hno. apply Hno.
    simpl. rewrite Hu. exact I.
  - destruct (m !! k) as [v|] eqn:Hk.
    + apply map_lookup_filter_Some. split; [done|]. simpl. rewrite Hu. tauto.
    + apply map_lookup_filter_None. by left.
Qed.

(** *** The batch *)

Lemma quarantine_item_run (w : world) (dir item : string) (σ : state) :
  quarantine_item w (Some dir) item σ
  = match Os.move w item dir σ with
    | (σ1, Ok _) => (log_state (quarantined_line item) σ1, Ok tt)
    | (σ1, Raise e) =>
        if is_OSError e
        then (log_state (quarantine_failed_line w item e) σ1, Ok tt)
        else (σ1, Raise e)
    end.
Proof.
  unfold quarantine_item, try_except, bind.
  destruct (Os.move w item dir σ) as [σ1 [[]|e]].
  - by rewrite log_run.
  - destruct (is_OSError e); [by rewrite log_run|done].
Qed.

(** C4, at its failing inputs.  The loop of [quarantine] absorbs an
    [OSError] only; [shutil.move] also raises its own [Error] and [IOError],
    and either one ends the batch.  In the first run two entries have the
    same base name: the first is moved, the move of the second finds the
    name taken and raises [Error].  In the second run a directory is visited
    before a file inside it: the file has gone with the directory, and the
    copy that [shutil.move] falls back on raises [IOError].  In both runs the
    directory has been made and one entry is logged as quarantined; the entry
    that fails has no line in the log, neither as quarantined nor as failed
    (in the first run it is still at its place, and what the directory holds
    under its base name is the other entry); the entry after it is never
    visited and stays where it was; the call raises. *)
Theorem quarantine_aborts_on_uncaught_error :
  (quarantine quiet_world {[ "/opt/ad"; "/usr/ad"; "/usr/tool" ]} (state_of twins_and_tool)
   = ({| fs := {[ backup_dir_at_noon := Dir;
                  backup_dir_at_noon +:+ "/ad" := File "x";
                  "/usr/ad" := File "y";
                  "/usr/tool" := File "z" ]};
         syslog := ["Quarantined adware file:  /opt/ad"];
         stdout := []; verbose := false |},
      Raise (ShutilError ["Destination path '" +:+ backup_dir_at_noon +:+ "/ad"
                          +:+ "' already exists"]))
   ∧ iteration quiet_world {[ "/opt/ad"; "/usr/ad"; "/usr/tool" ]}
     = ["/opt/ad"; "/usr/ad"; "/usr/tool"]
   ∧ is_OSError (ShutilError ["Destination path '" +:+ backup_dir_at_noon +:+ "/ad"
                              +:+ "' already exists"]) = false)
  ∧ (quarantine backwards_world {[ "/opt/tool"; "/opt/tool/run"; "/opt/ad" ]}
       (state_of infected)
     = ({| fs := {[ backup_dir_at_noon := Dir;
                    backup_dir_at_noon +:+ "/tool" := Dir;
                    backup_dir_at_noon +:+ "/tool/run" := File "y";
                    "/opt/ad" := File "x" ]};
           syslog := ["Quarantined adware file:  /opt/tool"];
           stdout := []; verbose := false |},
        Raise (IOError 2 "/opt/tool/run"))
     ∧ iteration backwards_world {[ "/opt/tool"; "/opt/tool/run"; "/opt/ad" ]}
       = ["/opt/tool"; "/opt/tool/run"; "/opt/ad"]
     ∧ iteration_ok backwards_world
     ∧ is_OSError (IOError 2 "/opt/tool/run") = false).
Proof.
  split; split_and!; try (vm_compute; reflexivity).
  intros X. unfold backwards_world, iteration. apply reverse_Permutation.
Qed.

(** ** Further properties of the script *)

Lemma iteration_empty (w : world) : iteration_ok w → iteration w ∅ = [].
Proof.
  intros Hw. apply Permutation_nil_r. symmetry.
  rewrite (Hw ∅). by rewrite elements_empty.
Qed.

Lemma iteration_length (w : world) (X : gset string) :
  iteration_ok w → length (iteration w X) = size X.
Proof. intros Hw. by rewrite (Hw X). Qed.

(** *** The plain report *)

(** X1. [report_to_stdout] hands the logger one string, which goes to the
    system log and to the standard output: the header line with the number
    of matches, then one line [i: path] per match, numbered from 0 in
    iteration order; the number in the header is the number of these lines,
    and for the empty set the report is the header line alone. *)
Theorem report_to_stdout_format (w : world) (files : gset string) (σ : state) :
  iteration_ok w →
  report_to_stdout w files σ
  = (with_output
       ["Adware files found: " +:+ Py.str_of_nat (length (iteration w files)) +:+ nl
        +:+ listing (iteration w files)]
       ["Adware files found: " +:+ Py.str_of_nat (length (iteration w files)) +:+ nl
        +:+ listing (iteration w files)] σ, Ok tt)
  ∧ (files = ∅ →
     report_to_stdout w files σ
     = (with_output ["Adware files found: 0" +:+ nl] ["Adware files found: 0" +:+ nl] σ,
        Ok tt)).
Proof.
  intros Hw.
  assert (Hgen : report_to_stdout w files σ
    = (with_output
         ["Adware files found: " +:+ Py.str_of_nat (length (iteration w files)) +:+ nl
          +:+ listing (iteration w files)]
         ["Adware files found: " +:+ Py.str_of_nat (length (iteration w files)) +:+ nl
          +:+ listing (iteration w files)] σ, Ok tt)).
  { unfold report_to_stdout. rewrite <- (iteration_length w files Hw).
    destruct (decide (files ≠ ∅)) as [Hne|Hempty].
    - rewrite fold_add_line_enumerate. by rewrite !string_app_assoc.
    - apply dec_stable in Hempty. subst files. rewrite (iteration_empty w Hw).
      unfold listing. cbn [length imap foldr]. by rewrite string_app_nil_r. }
  split; [exact Hgen|]. intros ->. rewrite Hgen, (iteration_empty w Hw). reflexivity.
Qed.

Lemma report_to_stdout_format_witness :
  report_to_stdout quiet_world {[ "/a"; "/b" ]} empty_state
  = (with_output
       ["Adware files found: 2" +:+ nl +:+ "0: /a" +:+ nl +:+ "1: /b" +:+ nl]
       ["Adware files found: 2" +:+ nl +:+ "0: /a" +:+ nl +:+ "1: /b" +:+ nl]
       empty_state, Ok tt).
Proof.
  rewrite (proj1 (report_to_stdout_format quiet_world {[ "/a"; "/b" ]} empty_state
                    (iteration_elements_ok quiet_world eq_refl))).
  vm_compute. reflexivity.
Defined.

(** *** The remediator on an empty match set *)

(** X2. With no match, [remove] and [quarantine] do nothing at all: no
    directory is made, nothing is logged, the state is as it was, and the
    unbound [backup_dir] of [quarantine] is never read. *)
Theorem remediation_of_nothing (w : world) (σ : state) :
  iteration_ok w →
  remove w ∅ σ = (σ, Ok tt) ∧ quarantine w ∅ σ = (σ, Ok tt).
Proof.
  intros Hw. unfold remove, quarantine, bind.
  destruct (decide (∅ ≠ (∅ : gset string))) as [[]|_]; [done|].
  by rewrite (iteration_empty w Hw).
Qed.

Lemma remediation_of_nothing_witness :
  quarantine quiet_world ∅ (state_of infected) = (state_of infected, Ok tt).
Proof.
  apply (remediation_of_nothing quiet_world (state_of infected)).
  by apply iteration_elements_ok.
Defined.

Lemma for_each_app {X} (xs ys : list X) (body : X → M unit) (σ : state) :
  for_each (xs ++ ys) body σ
  = match for_each xs body σ with
    | (σ', Ok _) => for_each ys body σ'
    | (σ', Raise e) => (σ', Raise e)
    end.
Proof.
  revert σ. induction xs as [|x xs IH]; intros σ; [done|].
  cbn [app]. rewrite !for_each_cons.
  destruct (body x σ) as [σ1 [[]|e]]; [apply IH|done].
Qed.

(** *** Failures that are let through *)

(** X3. An entry whose base name is already taken in the quarantine
    directory ends the batch: [shutil.move] raises its own [Error], which is
    no [OSError]; the [except] clause of the loop lets it through, the entry
    gets no line in the log, and the entries after it are not visited. *)
Theorem quarantine_destination_taken (w : world) (dir : string)
    (visited : list string) (item : string) (rest : list string) (σ σ1 : state) :
  for_each visited (quarantine_item w (Some dir)) σ = (σ1, Ok tt) →
  Os.isdir σ1 dir = true →
  item ≠ dir →
  Os.path_exists σ1 (quarantined_path dir item) = true →
  for_each (visited ++ item :: rest) (quarantine_item w (Some dir)) σ
  = (σ1, Raise (ShutilError ["Destination path '" +:+ quarantined_path dir item
                              +:+ "' already exists"])).
Proof.
  intros Hvisited Hdir Hne Htaken.
  rewrite for_each_app, Hvisited, for_each_cons, quarantine_item_run.
  unfold Os.move. rewrite Hdir. cbn [andb]. rewrite bool_decide_false by done.
  fold (quarantined_path dir item). by rewrite Htaken.
Qed.

Lemma quarantine_destination_taken_witness :
  for_each (["/opt/ad"] ++ "/usr/ad" :: ["/opt/tool"])
    (quarantine_item quiet_world (Some backup_dir_at_noon))
    (state_of (<[ backup_dir_at_noon := Dir ]> twins))
  = ((quarantine_item quiet_world (Some backup_dir_at_noon) "/opt/ad"
        (state_of (<[ backup_dir_at_noon := Dir ]> twins))).1,
     Raise (ShutilError ["Destination path '" +:+ backup_dir_at_noon +:+ "/ad"
                         +:+ "' already exists"])).
Proof.
  apply (quarantine_destination_taken quiet_world backup_dir_at_noon ["/opt/ad"]
           "/usr/ad" ["/opt/tool"]); [vm_compute; reflexivity..|discriminate|
                                      vm_compute; reflexivity].
Defined.

(** X4. A download that fails with anything but a [URLError] (a timeout
    while the body is read, a malformed URL) is not absorbed either: the
    fetcher raises at once, the cached copy is not consulted and the sources
    after it are not tried. *)
Theorem load_broken_download (w : world) (fetched : list string) (source : string)
    (rest : list string) (description : string) (σ σ1 : state)
    (locals : gset string * option string) :
  for_fold fetched (load_source w) (∅, None) σ = (σ1, Ok locals) →
  urlopen w source = inl (Broken description) →
  load_adware_description_files w (fetched ++ source :: rest) σ
  = (log_state (attempt_line source) σ1, Raise (OtherError description)).
Proof.
  intros Hpre Hnet. apply load_raises.
  rewrite for_fold_app, Hpre, for_fold_cons.
  unfold load_source, bind at 1, fetch, try_except at 1, bind at 1.
  rewrite log_run. unfold bind at 1, urllib2_urlopen_read. by rewrite Hnet.
Qed.

Lemma load_broken_download_witness :
  load_adware_description_files stalled_world
    ([] ++ "http://lists.example/first" :: ["http://lists.example/second"]) empty_state
  = (log_state (attempt_line "http://lists.example/first") empty_state,
     Raise (OtherError "timed out")).
Proof.
  apply (load_broken_download stalled_world [] "http://lists.example/first"
           ["http://lists.example/second"] "timed out" empty_state empty_state (∅, None));
    reflexivity.
Defined.

(** *** What the detector and the reports leave alone *)

Lemma scan_state (w : world) (candidates : list string) (acc : gset string)
    (σ σ' : state) (r : result (gset string)) :
  for_fold candidates (examine w) acc σ = (σ', r) → σ' = σ.
Proof.
  revert acc. induction candidates as [|c candidates IH]; intros acc.
  - by intros [= <- _].
  - rewrite for_fold_cons. destruct (read_text w σ c) as [text|] eqn:Hread.
    + rewrite (examine_readable w σ c text) by done. apply IH.
    + destruct (examine_unreadable w σ c acc Hread) as [errno ->].
      by intros [= <- _].
Qed.

(** X5. The detector only reads: however [get_projectX_files] ends, with
    a set or with the [IOError] of a candidate, no file has been touched and
    nothing has been logged or printed. *)
Theorem get_projectX_files_reads_only (w : world) (σ σ' : state)
    (r : result (gset string)) :
  get_projectX_files w σ = (σ', r) → σ' = σ.
Proof. unfold get_projectX_files. apply scan_state. Qed.

Lemma get_projectX_files_reads_only_witness :
  (get_projectX_files agent_world (state_of {[ foobar_plist := File job_plain ]})).1
  = state_of {[ foobar_plist := File job_plain ]}.
Proof.
  apply (get_projectX_files_reads_only agent_world _ _
           (get_projectX_files agent_world
              (state_of {[ foobar_plist := File job_plain ]})).2).
  by destruct (get_projectX_files agent_world _).
Defined.

(** The fetcher changes the files at the cache entry of the source only. *)
Lemma fetch_frame (w : world) (source : string) (adware_list : option string)
    (σ σ' : state) (r : result (option string)) :
  fetch w source adware_list σ = (σ', r) →
  ∀ k, k ≠ cache_file source → fs σ' !! k = fs σ !! k.
Proof.
  intros Hrun k Hk. revert Hrun.
  destruct (urlopen w source) as [[reason|description]|body] eqn:Hnet.
  - unfold fetch, try_except at 1, bind at 1.
    rewrite log_run. unfold bind at 1, urllib2_urlopen_read. rewrite Hnet.
    unfold raise. cbn [is_URLError]. unfold bind at 1. rewrite log_run.
    unfold try_except, bind at 1, Os.open_read.
    destruct (refused w (Open_r (cache_file source))); cbn [is_IOError].
    + unfold bind. rewrite log_run. by intros [= <- _].
    + destruct (fs _ !! cache_file source) as [[]|]; cbn [is_IOError];
        unfold bind, ret; rewrite ?log_run; by intros [= <- _].
  - unfold fetch, try_except at 1, bind at 1.
    rewrite log_run. unfold bind at 1, urllib2_urlopen_read. rewrite Hnet.
    by intros [= <- _].
  - destruct (refused w (Open_w (cache_file source))) as [errno|] eqn:Hw.
    + rewrite (fetch_cache_refused w source body errno) by done.
      case_bool_decide; by intros [= <- _].
    + unfold fetch, try_except at 1, bind at 1.
      rewrite log_run. unfold bind at 1, urllib2_urlopen_read. rewrite Hnet.
      unfold ret at 1. unfold bind at 1, try_except, Os.open_write. rewrite Hw.
      destruct (fs _ !! cache_file source) as [[]|]; cbn [is_IOError];
        intros [= <- _]; cbn; by rewrite ?lookup_insert_ne.
Qed.

Lemma load_loop_frame (w : world) (sources : list string)
    (locals : gset string * option string) (σ σ' : state)
    (r : result (gset string * option string)) :
  for_fold sources (load_source w) locals σ = (σ', r) →
  ∀ k, (∀ source, source ∈ sources → k ≠ cache_file source) →
       fs σ' !! k = fs σ !! k.
Proof.
  revert locals σ. induction sources as [|s sources IH]; intros locals σ.
  - by intros [= <- _].
  - rewrite for_fold_cons. intros Hrun k Hk.
    destruct (load_source w s locals σ) as [σ1 r1] eqn:Hstep.
    assert (Hfs1 : fs σ1 !! k = fs σ !! k).
    { revert Hstep. unfold load_source, bind.
      destruct (fetch w s locals.2 σ) as [σ2 r2] eqn:Hfetch.
      pose proof (fetch_frame w s _ σ σ2 r2 Hfetch k (Hk s ltac:(by left))) as Hf.
      destruct r2 as [[text|]|e]; by intros [= <- _]. }
    destruct r1 as [locals1|e].
    + rewrite <- Hfs1. eapply IH; [exact Hrun|]. intros s' Hs'. apply Hk. by right.
    + by injection Hrun as <- _.
Qed.

(** X6. In the two report modes nothing is removed and nothing is moved:
    whatever the run does and however it ends, the only paths whose content
    [main] may have changed are the cache entries of the configured
    sources. *)
Theorem report_modes_change_the_cache_only (w : world) (args : arguments)
    (σ σ' : state) (r : result unit) :
  arg_remove args = false → arg_quarantine args = false →
  main w args σ = (σ', r) →
  ∀ k, (∀ source, source ∈ NEFARIOUS_FILE_SOURCES → k ≠ cache_file source) →
       fs σ' !! k = fs σ !! k.
Proof.
  intros Hrm Hq Hrun k Hk. revert Hrun. unfold main. rewrite Hrm, Hq.
  unfold bind at 1.
  assert (Hv : ∃ σv, (if arg_verbose args
                      then modify (λ σ0, {| fs := fs σ0; syslog := syslog σ0;
                                            stdout := stdout σ0; verbose := true |})
                      else ret tt) σ = (σv, Ok tt) ∧ fs σv = fs σ).
  { destruct (arg_verbose args); eexists; split; reflexivity. }
  destruct Hv as (σv & -> & Hfsv). unfold bind at 1, load_adware_description_files, bind at 1.
  destruct (for_fold NEFARIOUS_FILE_SOURCES (load_source w) (∅, None) σv)
    as [σ1 r1] eqn:Hload.
  pose proof (load_loop_frame w _ _ _ _ _ Hload k Hk) as Hfs1. rewrite Hfsv in Hfs1.
  destruct r1 as [locals|e]; [|by intros [= <- _]].
  unfold ret at 1. unfold bind at 1.
  destruct (get_projectX_files w σ1) as [σ2 r2] eqn:Hdetect.
  apply scan_state in Hdetect as ->.
  destruct r2 as [projectx|e]; [|by intros [= <- _]].
  destruct (arg_stdout args); intros [= <- _]; exact Hfs1.
Qed.

Lemma report_modes_change_the_cache_only_witness :
  fs (main (serving_world None) no_arguments (state_of infected)).1 !! "/opt/ad"
  = fs (state_of infected) !! "/opt/ad".
Proof.
  apply (report_modes_change_the_cache_only (serving_world None) no_arguments
           (state_of infected) _
           (main (serving_world None) no_arguments (state_of infected)).2);
    [reflexivity|reflexivity|apply surjective_pairing|].
  intros source Hsource. apply list_elem_of_singleton in Hsource as ->.
  intros Heq. vm_compute in Heq. discriminate.
Defined.

Lemma contains_char (c : ascii) (s : string) :
  Py.contains (String c "") s = false ↔ c ∉ list_ascii_of_string s.
Proof.
  split.
  - intros Hno (x & y & Hsplit)%list_elem_of_split.
    by apply (not_contains_list _ _ x y Hno).
  - intros Hc. apply not_true_iff_false. intros (pre & post & ->)%contains_spec.
    apply Hc. rewrite !list_ascii_app. apply elem_of_app. right.
    apply elem_of_app. left. cbn. by left.
Qed.

Lemma load_loop_lines (w : world) (sources : list string)
    (locals locals' : gset string * option string) (σ σ' : state) :
  for_fold sources (load_source w) locals σ = (σ', Ok locals') →
  (∀ pattern, pattern ∈ locals.1 → Py.contains nl pattern = false) →
  ∀ pattern, pattern ∈ locals'.1 → Py.contains nl pattern = false.
Proof.
  revert locals σ. induction sources as [|s sources IH]; intros locals σ.
  - by intros [= _ <-].
  - rewrite for_fold_cons. destruct (load_source w s locals σ) as [σ1 [locals1|e]] eqn:Hstep;
      [|done].
    intros Hrun Hlocals. apply (IH _ _ Hrun). intros pattern.
    revert Hstep. unfold load_source, bind.
    destruct (fetch w s locals.2 σ) as [σ2 [[text|]|e]]; [|done..].
    intros [= _ <-]. cbn [fst]. intros [Hold|Hnew]%elem_of_union; [by apply Hlocals|].
    apply elem_of_list_to_set in Hnew. apply contains_char.
    by apply (split_no_separator Py.newline text).
Qed.

(** X7. Every pattern the fetcher hands to the globbing step is a single
    line: no member of the set returned by [load_adware_description_files]
    contains a newline, whatever the downloaded lists and cached copies
    look like. *)
Theorem load_patterns_are_lines (w : world) (sources : list string) (σ σ' : state)
    (known_adware : gset string) :
  load_adware_description_files w sources σ = (σ', Ok known_adware) →
  ∀ pattern, pattern ∈ known_adware → Py.contains nl pattern = false.
Proof.
  unfold load_adware_description_files, bind.
  destruct (for_fold sources (load_source w) (∅, None) σ) as [σ1 [locals|e]] eqn:Hloop;
    [|done].
  intros [= _ <-]. apply (load_loop_lines _ _ _ _ _ _ Hloop).
  intros pattern Hin. by apply elem_of_empty in Hin.
Qed.

Lemma load_patterns_are_lines_witness : Py.contains nl "/opt/ad" = false.
Proof.
  apply (load_patterns_are_lines (serving_world None) NEFARIOUS_FILE_SOURCES empty_state
           (load_adware_description_files (serving_world None) NEFARIOUS_FILE_SOURCES
              empty_state).1 {[ "/opt/ad"; "" ]}).
  - vm_compute. reflexivity.
  - apply elem_of_union. left. by apply elem_of_singleton.
Defined.

(** *** The cache as a fallback *)

Lemma cache_after_other (w : world) (m : gmap string node) (source : string)
    (k : string) :
  k ≠ cache_file source → cache_after w m source !! k = m !! k.
Proof.
  intros Hk. unfold cache_after.
  destruct (urlopen w source) as [|body]; [done|]. by rewrite lookup_insert_ne.
Qed.

Lemma cache_after_all_other (w : world) (sources : list string) (m : gmap string node)
    (k : string) :
  k ∉ cache_file <$> sources → cache_after_all w m sources !! k = m !! k.
Proof.
  revert m. induction sources as [|s sources IH]; intros m Hk; [done|].
  cbn in Hk. apply not_elem_of_cons in Hk as [Hne Hk].
  unfold cache_after_all. cbn [foldl]. fold (cache_after_all w (cache_after w m s) sources).
  rewrite IH by done. by apply cache_after_other.
Qed.

(** Online, every source yields its body, and the cache ends up holding
    each body at the entry of its source. *)
Lemma online_texts (w : world) (sources : list string) (m : gmap string node) :
  NoDup (cache_file <$> sources) → online w m sources →
  ∃ texts,
    source_texts w m sources = Some texts
    ∧ Forall2 (λ source text, urlopen w source = inr text
                 ∧ cache_after_all w m sources !! cache_file source = Some (File text))
              sources texts.
Proof.
  revert m. induction sources as [|s sources IH]; intros m Hdistinct Honline.
  - exists []. by split; [|constructor].
  - cbn in Hdistinct. apply NoDup_cons in Hdistinct as [Hfresh Hdistinct].
    destruct (Honline s ltac:(by left)) as ((body & Hbody) & Hw & Hnodir).
    assert (Hrest : online w (cache_after w m s) sources).
    { intros s' Hs'. destruct (Honline s' ltac:(by right)) as (Hb & Hw' & Hd).
      split_and!; [done..|]. rewrite cache_after_other; [done|].
      intros Heq. apply Hfresh. rewrite <- Heq. apply list_elem_of_fmap. by exists s'. }
    destruct (IH _ Hdistinct Hrest) as (texts & Htexts & Hall).
    exists (body :: texts). split.
    + cbn [source_texts]. unfold source_text at 1. rewrite Hbody, Hw.
      destruct (m !! cache_file s) as [[]|]; [|done|]; by rewrite Htexts.
    + unfold cache_after_all. cbn [foldl].
      fold (cache_after_all w (cache_after w m s) sources). constructor; [|done].
      split; [done|]. rewrite cache_after_all_other by done.
      unfold cache_after. rewrite Hbody. by rewrite lookup_insert_eq.
Qed.

(** Offline, every source yields the copy the cache holds for it. *)
Lemma offline_texts (w : world) (sources texts : list string) (m : gmap string node) :
  offline w sources →
  Forall2 (λ source text, m !! cache_file source = Some (File text)) sources texts →
  source_texts w m sources = Some texts.
Proof.
  intros Hoff Hall. induction Hall as [|s text sources texts Hs Hall IH]; [done|].
  destruct (Hoff s ltac:(by left)) as ((reason & Hnet) & Hr).
  cbn [source_texts]. unfold source_text at 1, cache_after. rewrite Hnet, Hr, Hs.
  rewrite IH; [done|]. intros s' Hs'. apply Hoff. by right.
Qed.

Lemma load_loop_cache (w : world) (sources texts : list string)
    (locals : gset string * option string) (σ σ' : state)
    (r : result (gset string * option string)) :
  source_texts w (fs σ) sources = Some texts →
  for_fold sources (load_source w) locals σ = (σ', r) →
  fs σ' = cache_after_all w (fs σ) sources.
Proof.
  revert texts locals σ. induction sources as [|s sources IH]; intros texts locals σ.
  - by intros _ [= <- _].
  - cbn [source_texts]. intros Htexts.
    destruct (source_text w (fs σ) s) as [text|] eqn:Htext; [|done].
    destruct (source_texts w (cache_after w (fs σ) s) sources) as [texts'|] eqn:Hrest;
      [|done].
    destruct (fetch_source_text w s text locals.2 σ Htext) as (σ1 & Hfetch & Hfs).
    rewrite for_fold_cons, (load_source_bound w s text locals σ σ1 Hfetch).
    rewrite <- Hfs in Hrest. intros Hrun.
    unfold cache_after_all. cbn [foldl]. rewrite <- Hfs. by eapply IH.
Qed.

(** X8. The cache is a faithful fallback when the sources have distinct
    file names: after a run that downloaded every list, a run without
    network, started on the files the first one left, returns the very same
    set of patterns. *)
Theorem cached_lists_serve_offline (w w' : world) (sources : list string)
    (σ σ1 σ2 : state) (known_adware : gset string) :
  NoDup (cache_file <$> sources) →
  online w (fs σ) sources →
  offline w' sources →
  load_adware_description_files w sources σ = (σ1, Ok known_adware) →
  fs σ2 = fs σ1 →
  ∃ σ3, load_adware_description_files w' sources σ2 = (σ3, Ok known_adware).
Proof.
  intros Hdistinct Honline Hoffline Hrun Hfs.
  destruct (online_texts w sources (fs σ) Hdistinct Honline) as (texts & Htexts & Hall).
  destruct (load_loop_source_texts w sources texts ∅ None σ Htexts)
    as (σ1' & bound & Hloop).
  pose proof (load_loop_cache w sources texts _ σ σ1' _ Htexts Hloop) as Hcache.
  revert Hrun. unfold load_adware_description_files, bind. rewrite Hloop.
  intros [= <- <-]. cbn [fst].
  assert (Hoff : source_texts w' (fs σ2) sources = Some texts).
  { apply offline_texts; [done|]. rewrite Hfs, Hcache.
    eapply Forall2_impl; [exact Hall|]. by intros s text [_ ?]. }
  destruct (load_loop_source_texts w' sources texts ∅ None σ2 Hoff)
    as (σ3 & bound' & Hloop').
  exists σ3. by rewrite Hloop'.
Qed.

Lemma cached_lists_serve_offline_witness :
  ∃ σ3, load_adware_description_files quiet_world two_lists
          (load_adware_description_files (serving_world None) two_lists empty_state).1
        = (σ3, Ok {[ "/opt/ad"; "" ]}).
Proof.
  apply (cached_lists_serve_offline (serving_world None) quiet_world two_lists
           empty_state
           (load_adware_description_files (serving_world None) two_lists empty_state).1).
  - vm_compute. apply NoDup_cons. split; [|apply NoDup_singleton].
    intros Heq%list_elem_of_singleton. discriminate.
  - intros source _. split_and!; [by eexists|done..].
  - intros source _. split; [by eexists|done].
  - vm_compute. reflexivity.
  - reflexivity.
Defined.

(** *** What [remove] changes *)

Lemma removed_line_not_failed (w : world) (item : string) (e : exc) :
  remove_failed_line w item e ≠ removed_line item.
Proof. unfold remove_failed_line, removed_line. rewrite !string_app_cons. congruence. Qed.

(** One entry of [remove], by the kind of the entry. *)
Lemma remove_item_effect (w : world) (item : string) (σ : state) :
  ∃ σ' line, remove_item w item σ = (σ', Ok tt)
    ∧ syslog σ' = syslog σ ++ [line]
    ∧ stdout σ' = stdout σ ++ (if verbose σ then [line] else [])
    ∧ verbose σ' = verbose σ
    ∧ ((line ≠ removed_line item ∧ fs σ' = fs σ)
       ∨ (line = removed_line item ∧ fs σ !! item = None ∧ fs σ' = fs σ)
       ∨ (line = removed_line item ∧ fs σ !! item = Some Dir
          ∧ fs σ' = Os.without item (fs σ))
       ∨ (line = removed_line item ∧ (∃ content, fs σ !! item = Some (File content))
          ∧ fs σ' = delete item (fs σ))).
Proof.
  unfold remove_item, try_except, bind at 1, get_state, Os.isdir, Os.isfile.
  destruct (fs σ !! item) as [[content|]|] eqn:Hitem.
  - unfold bind, Os.unlink. rewrite Hitem.
    destruct (refused w (Unlink item)) as [n|] eqn:Hr;
      cbn [is_OSError]; rewrite log_run; eexists _, _;
      (split; [reflexivity|]); (split; [reflexivity|]); (split; [reflexivity|]);
      (split; [reflexivity|]).
    + left. split; [apply removed_line_not_failed|done].
    + right. right. right. split; [done|]. split; [by eexists|done].
  - unfold bind, Os.rmtree, Os.isdir, Os.path_exists. rewrite Hitem.
    cbn [negb].
    destruct (Os.first_refusal w _) as [[n q]|];
      cbn [is_OSError]; rewrite log_run; eexists _, _;
      (split; [reflexivity|]); (split; [reflexivity|]); (split; [reflexivity|]);
      (split; [reflexivity|]).
    + left. split; [apply removed_line_not_failed|done].
    + right. right. left. done.
  - unfold bind, ret. rewrite log_run. eexists _, _.
    do 4 (split; [reflexivity|]). right. left. done.
Qed.


(** What the entries visited so far have made of the map [m0] of paths:
    nothing has been added or altered, and where a directory of [m0] is
    gone, everything below it is gone too. *)
Lemma remove_item_keeps (w : world) (item : string) (m0 : gmap string node)
    (σ σ' : state) (r : result unit) :
  remove_item w item σ = (σ', r) →
  (∀ k, fs σ !! k = None ∨ fs σ !! k = m0 !! k) →
  (∀ d, m0 !! d = Some Dir → fs σ !! d = None →
        ∀ k, Py.under d k = true → fs σ !! k = None) →
  (∀ k, fs σ' !! k = None ∨ fs σ' !! k = fs σ !! k)
  ∧ (∀ d, m0 !! d = Some Dir → fs σ' !! d = None →
          ∀ k, Py.under d k = true → fs σ' !! k = None).
Proof.
  intros Hrun Hsub Hdirs.
  destruct (remove_item_effect w item σ) as (σ1 & line & Hrun' & _ & _ & _ & Hfs).
  rewrite Hrun in Hrun'. injection Hrun' as <- _.
  destruct Hfs as [[_ Heq]|[(_ & _ & Heq)|[(_ & Hdir & Heq)|(_ & [c Hfile] & Heq)]]];
    rewrite Heq.
  - split; [by right|done].
  - split; [by right|done].
  - split.
    + intros k. rewrite without_lookup. destruct (Py.under item k); [by left|by right].
    + intros d Hd. rewrite without_lookup. intros Hgone k Hk. rewrite without_lookup.
      destruct (Py.under item k) eqn:Hik; [done|].
      destruct (Py.under item d) eqn:Hid.
      * by rewrite (under_trans item d k) in Hik.
      * by apply (Hdirs d).
  - split.
    + intros k. destruct (decide (k = item)) as [->|Hne].
      * left. apply lookup_delete_eq.
      * right. by apply lookup_delete_ne.
    + intros d Hd Hgone k Hk. destruct (decide (d = item)) as [->|Hne].
      * destruct (Hsub item) as [H|H]; congruence.
      * rewrite lookup_delete_ne in Hgone by done.
        apply lookup_delete_None. right. by apply (Hdirs d).
Qed.

(** X10. A regular file or a directory that [remove] reports as removed
    is gone when it returns: the entry itself and, when the entry was a
    directory before the run, everything below it, also when an entry
    visited earlier or later lies inside it or around it. *)
Theorem remove_clears_what_it_reports (w : world) (files : gset string) (σ : state) :
  ∃ σ' lines, remove w files σ = (σ', Ok tt)
    ∧ syslog σ' = syslog σ ++ lines
    ∧ Forall2 (λ item line,
                 line = removed_line item →
                 is_Some (fs σ !! item) →
                 fs σ' !! item = None
                 ∧ (fs σ !! item = Some Dir →
                    ∀ k, Py.under item k = true → fs σ' !! k = None))
        (iteration w files) lines.
Proof.
  unfold remove. generalize (iteration w files). intros items.
  cut (∀ σ1 : state,
         (∀ k, fs σ1 !! k = None ∨ fs σ1 !! k = fs σ !! k) →
         (∀ d, fs σ !! d = Some Dir → fs σ1 !! d = None →
               ∀ k, Py.under d k = true → fs σ1 !! k = None) →
         ∃ σ' lines, for_each items (remove_item w) σ1 = (σ', Ok tt)
           ∧ syslog σ' = syslog σ1 ++ lines
           ∧ (∀ k, fs σ1 !! k = None → fs σ' !! k = None)
           ∧ Forall2 (λ item line,
                        line = removed_line item →
                        fs σ' !! item = None
                        ∧ (fs σ !! item = Some Dir →
                           ∀ k, Py.under item k = true → fs σ' !! k = None))
               items lines).
  { intros Hloop. destruct (Hloop σ) as (σ' & lines & Hrun & Hlog & _ & Hall).
    - intros k. by right.
    - intros d Hd Hgone. congruence.
    - exists σ', lines. split_and!; [done|done|].
      eapply Forall2_impl; [exact Hall|]. intros item line Hgone Hline _.
      by apply Hgone. }
  induction items as [|item items IH]; intros σ1 Hsub Hdirs.
  - exists σ1, []. split_and!; [done|by rewrite app_nil_r|done|constructor].
  - destruct (remove_item_effect w item σ1)
      as (σ2 & line & Hrun & Hlog & _ & _ & Hfs).
    destruct (remove_item_keeps w item (fs σ) σ1 σ2 _ Hrun Hsub Hdirs)
      as [Hstep Hdirs2].
    assert (Hsub2 : ∀ k, fs σ2 !! k = None ∨ fs σ2 !! k = fs σ !! k).
    { intros k. destruct (Hstep k) as [?|Heq]; [by left|]. rewrite Heq. apply Hsub. }
    assert (Hmono : ∀ k, fs σ1 !! k = None → fs σ2 !! k = None).
    { intros k Hk. destruct (Hstep k) as [?|Heq]; [done|]. by rewrite Heq. }
    destruct (IH σ2 Hsub2 Hdirs2) as (σ' & lines & Hrest & Hlog' & Hmono' & Hall).
    exists σ', (line :: lines). rewrite for_each_cons, Hrun. split_and!.
    + done.
    + by rewrite Hlog', Hlog, <- (assoc_L (++)).
    + intros k Hk. by apply Hmono', Hmono.
    + constructor; [|done]. intros Hline.
      assert (Hnow : fs σ2 !! item = None
                     ∧ (fs σ !! item = Some Dir →
                        ∀ k, Py.under item k = true → fs σ2 !! k = None)).
      { destruct Hfs as [[Hne _]|[(_ & Hnone & Heq)|[(_ & Hdir & Heq)|(_ & [c Hfile] & Heq)]]].
        - done.
        - rewrite Heq. split; [done|]. intros Hd. by apply Hdirs.
        - rewrite Heq. split.
          + by rewrite without_lookup, under_refl.
          + intros _ k Hk. by rewrite without_lookup, Hk.
        - rewrite Heq. split; [apply lookup_delete_eq|].
          intros Hd. destruct (Hsub item) as [H|H]; congruence. }
      destruct Hnow as [Hitem Hbelow]. split; [by apply Hmono'|].
      intros Hd k Hk. by apply Hmono', Hbelow.
Qed.

(** *** What the detector looks for *)

Lemma accepted_any (g : list ascii) :
  accepted Re.AnyChar g ↔ Py.newline ∉ g.
Proof.
  unfold accepted. rewrite Forall_forall. split.
  - intros Hall Hin. apply Hall in Hin. cbn in Hin.
    by rewrite bool_decide_true in Hin.
  - intros Hno c Hc. cbn. rewrite bool_decide_false; [done|]. by intros ->.
Qed.

Lemma agent_suffix_accepts (x : list ascii) :
  accepted_by agent_suffix x ↔
  ∃ dot, dot ≠ Py.newline
         ∧ x = list_ascii_of_string agent_marker
               ++ dot :: list_ascii_of_string "app/Contents/MacOS/agent".
Proof.
  change agent_suffix with
    ((Re.Lit <$> list_ascii_of_string agent_marker) ++
     Re.AnyChar :: (Re.Lit <$> list_ascii_of_string "app/Contents/MacOS/agent")).
  split.
  - intros (x1 & x2 & H1 & H2 & ->)%Forall2_app_inv_l.
    apply accepted_by_literals in H1 as ->.
    apply Forall2_cons_inv_l in H2 as (dot & x3 & Hdot & H3 & ->).
    apply accepted_by_literals in H3 as ->. exists dot. split; [|done].
    intros ->. cbn in Hdot. by rewrite bool_decide_true in Hdot.
  - intros (dot & Hdot & ->). apply Forall2_app; [apply accepted_by_literals_refl|].
    constructor; [|apply accepted_by_literals_refl].
    cbn. by rewrite bool_decide_false.
Qed.

Lemma binary_below_list (name : string) (dot : ascii) :
  list_ascii_of_string (binary_below name dot)
  = agent_prefix ++ list_ascii_of_string name
    ++ (list_ascii_of_string agent_marker
        ++ dot :: list_ascii_of_string "app/Contents/MacOS/agent").
Proof. unfold binary_below. by rewrite !list_ascii_app. Qed.

(** X11. The detector takes a launchd job for one of the adware exactly
    when the job contains, on one line, the directory
    [/Library/Application Support/], a name and the path
    [/Agent/agent.app/Contents/MacOS/agent] of the binary, where any
    character but a newline may stand for the dot; what comes before and
    after is of no account. *)
Theorem agent_regex_criterion (launchd_job : string) :
  is_Some (Re.search agent_regex launchd_job) ↔
  ∃ pre name dot post,
    launchd_job = pre +:+ binary_below name dot +:+ post
    ∧ Py.contains nl name = false ∧ dot ≠ Py.newline.
Proof.
  unfold Re.search. split.
  - intros [m Hm]. apply search_from_sound in Hm as (p & q & Hsplit & Hm).
    apply agent_regex_sound in Hm as (u & g & x & rest & -> & _ & Hg & Hx & _).
    apply agent_suffix_accepts in Hx as (dot & Hdot & ->).
    exists (string_of_list_ascii (p ++ u)), (string_of_list_ascii g), dot,
      (string_of_list_ascii rest).
    split_and!; [|by apply contains_char;
                     rewrite list_ascii_of_string_of_list_ascii; apply accepted_any|done].
    apply list_ascii_inj.
    rewrite !list_ascii_app, binary_below_list, !list_ascii_of_string_of_list_ascii,
      Hsplit, <- !(assoc_L (++)).
    done.
  - intros (pre & name & dot & post & -> & Hname & Hdot).
    rewrite !list_ascii_app, binary_below_list.
    set (x := list_ascii_of_string agent_marker ++ _). rewrite <- !(assoc_L (++)).
    apply (agent_regex_complete (list_ascii_of_string pre) []
             (list_ascii_of_string name) x (list_ascii_of_string post)).
    + constructor.
    + by apply accepted_any, contains_char.
    + apply agent_suffix_accepts. by exists dot.
Qed.

(** *** Where the cached copies go *)

Lemma split_not_nil (sep : ascii) (s : string) : Py.split sep s ≠ [].
Proof.
  destruct s as [|c s]; [done|]. cbn [Py.split].
  destruct (decide (c = sep)); [done|]. by destruct (Py.split sep s).
Qed.

Lemma split_app_sep (sep : ascii) (a b : string) :
  Py.split sep (a +:+ String sep b) = Py.split sep a ++ Py.split sep b.
Proof.
  induction a as [|c a IH].
  - change ("" +:+ String sep b) with (String sep b). cbn [Py.split].
    by rewrite decide_True.
  - rewrite string_app_cons. cbn [Py.split]. rewrite IH.
    destruct (decide (c = sep)); [done|].
    pose proof (split_not_nil sep a). by destruct (Py.split sep a).
Qed.

Lemma split_one_piece (sep : ascii) (s : string) :
  sep ∉ list_ascii_of_string s → Py.split sep s = [s].
Proof.
  induction s as [|c s IH]; [done|]. cbn. intros Hno.
  apply not_elem_of_cons in Hno as [Hne Hno].
  rewrite decide_False by done. by rewrite IH.
Qed.

Lemma basename_last_segment (prefix name : string) :
  no_slash name → Py.basename (prefix +:+ "/" +:+ name) = name.
Proof.
  intros Hname. unfold Py.basename.
  change ("/" +:+ name) with (String Py.slash name).
  rewrite split_app_sep, (split_one_piece _ name) by done.
  apply List.last_last.
Qed.

(** X12. The cached copy of a source is a file directly inside the cache
    directory, named by what follows the last slash of the URL and by
    nothing else: two sources that end in the same segment share one
    cache entry. *)
Theorem cache_file_last_segment (prefix name : string) :
  no_slash name →
  cache_file (prefix +:+ "/" +:+ name) = CACHE +:+ "/" +:+ name
  ∧ ∀ prefix', cache_file (prefix' +:+ "/" +:+ name) = cache_file (prefix +:+ "/" +:+ name).
Proof.
  intros Hname.
  assert (Hfile : ∀ p, cache_file (p +:+ "/" +:+ name) = CACHE +:+ "/" +:+ name).
  { intros p. unfold cache_file. rewrite basename_last_segment by done.
    by apply join_child. }
  split; [apply Hfile|]. intros prefix'. by rewrite !Hfile.
Qed.

Lemma cache_file_last_segment_witness :
  cache_file ("http://lists.example" +:+ "/" +:+ "AppleAdwareList")
  = CACHE +:+ "/" +:+ "AppleAdwareList".
Proof.
  apply (cache_file_last_segment "http://lists.example" "AppleAdwareList").
  unfold no_slash. vm_compute. intros Hin.
  repeat (apply elem_of_cons in Hin as [Hin|Hin]; [discriminate|]).
  by apply elem_of_nil in Hin.
Defined.

(** *** The name of the quarantine directory *)

Lemma digit_inj (a b : nat) : a < 10 → b < 10 → digit a = digit b → a = b.
Proof.
  intros Ha Hb Heq. apply (f_equal nat_of_ascii) in Heq. unfold digit in Heq.
  rewrite !nat_ascii_embedding in Heq by lia. lia.
Qed.

Lemma string_cons_inj (c c' : ascii) (s s' : string) :
  String c s = String c' s' → c = c' ∧ s = s'.
Proof. by intros [= -> ->]. Qed.

Lemma two_digits_inj (n m : nat) (rest rest' : string) :
  n < 100 → m < 100 → two_digits n rest = two_digits m rest' → n = m ∧ rest = rest'.
Proof.
  intros Hn Hm. unfold two_digits.
  intros [Htens [Hunits ->]%string_cons_inj]%string_cons_inj. split; [|done].
  apply digit_inj in Htens; [|by apply Nat.mod_upper_bound..].
  apply digit_inj in Hunits; [|by apply Nat.mod_upper_bound..].
  rewrite !Nat.mod_small in Htens by (apply Nat.Div0.div_lt_upper_bound; lia).
  rewrite (Nat.div_mod_eq n 10), (Nat.div_mod_eq m 10). lia.
Qed.

Lemma four_digits_inj (n m : nat) (rest rest' : string) :
  n < 100 * 100 → m < 100 * 100 →
  four_digits n rest = four_digits m rest' → n = m ∧ rest = rest'.
Proof.
  intros Hn Hm. unfold four_digits, two_digits.
  intros [Hthousands [Hhundreds [Htens [Hunits ->]%string_cons_inj]%string_cons_inj]
            %string_cons_inj]%string_cons_inj.
  split; [|done].
  apply digit_inj in Hthousands; [|by apply Nat.mod_upper_bound..].
  apply digit_inj in Hhundreds; [|by apply Nat.mod_upper_bound..].
  apply digit_inj in Htens; [|by apply Nat.mod_upper_bound..].
  apply digit_inj in Hunits; [|by apply Nat.mod_upper_bound..].
  rewrite !Nat.mod_small in Hthousands by (apply Nat.Div0.div_lt_upper_bound; lia).
  assert (Hdigits : ∀ k, k = 1000 * (k / 1000) + 100 * (k / 100 mod 10)
                             + 10 * (k / 10 mod 10) + k mod 10).
  { intros k. pose proof (Nat.div_mod_eq k 10) as Hunit.
    pose proof (Nat.div_mod_eq (k / 10) 10) as Hten.
    pose proof (Nat.div_mod_eq (k / 10 / 10) 10) as Hhundred.
    rewrite (Nat.Div0.div_div k 10 10) in Hten, Hhundred.
    change (10 * 10) with 100 in Hten, Hhundred.
    rewrite (Nat.Div0.div_div k 100 10) in Hhundred.
    change (100 * 10) with 1000 in Hhundred. lia. }
  rewrite (Hdigits n), (Hdigits m). lia.
Qed.

(** X13. The quarantine directory names the second in which the run
    began: two runs get the same directory only when their local times
    agree to the second. *)
Theorem backup_dir_names_the_second (w w' : world) :
  tm_ok (localtime w) → tm_ok (localtime w') →
  backup_dir_of w = backup_dir_of w' → localtime w = localtime w'.
Proof.
  intros Hok Hok' Heq.
  destruct (backup_dir_shape w Hok) as (Hshape & _).
  destruct (backup_dir_shape w' Hok') as (Hshape' & _).
  rewrite Hshape, Hshape' in Heq. apply string_app_inv_head in Heq.
  apply string_app_inv_head in Heq.
  destruct Hok as (Hy & Hm & Hd & HH & HM & HS).
  destruct Hok' as (Hy' & Hm' & Hd' & HH' & HM' & HS').
  destruct (localtime w) as [y mo d h mi s], (localtime w') as [y' mo' d' h' mi' s'].
  cbn [Py.tm_year Py.tm_mon Py.tm_mday Py.tm_hour Py.tm_min Py.tm_sec] in *.
  unfold timestamp in Heq.
  cbn [Py.tm_year Py.tm_mon Py.tm_mday Py.tm_hour Py.tm_min Py.tm_sec] in Heq.
  apply four_digits_inj in Heq as [-> Heq]; [|lia..].
  apply two_digits_inj in Heq as [-> Heq]; [|lia..].
  apply two_digits_inj in Heq as [-> Heq]; [|lia..].
  apply string_cons_inj in Heq as [_ Heq].
  apply two_digits_inj in Heq as [-> Heq]; [|lia..].
  apply two_digits_inj in Heq as [-> Heq]; [|lia..].
  apply two_digits_inj in Heq as [-> _]; [|lia..].
  done.
Qed.

Lemma backup_dir_names_the_second_witness :
  localtime quiet_world = localtime agent_world.
Proof.
  apply (backup_dir_names_the_second quiet_world agent_world);
    [unfold tm_ok; simpl; lia..|reflexivity].
Defined.

(** *** What the detector returns *)

Lemma scan_returns (w : world) (σ σ' : state) (candidates : list string)
    (acc found : gset string) :
  for_fold candidates (examine w) acc σ = (σ', Ok found) →
  found = acc ∪ ⋃ (contribution w σ <$> candidates).
Proof.
  intros Hrun.
  destruct (decide (Forall (λ c, is_Some (read_text w σ c)) candidates)) as [Hall|Hnot].
  - rewrite Forall_forall in Hall. rewrite scan_readable in Hrun by done.
    by injection Hrun as _ <-.
  - apply not_Forall_Exists in Hnot; [|apply _].
    apply Exists_exists in Hnot as (c & Hc & Hread).
    destruct (scan_unreadable w σ candidates acc c Hc) as (errno & path & Hraise & _).
    + by apply eq_None_not_Some.
    + congruence.
Qed.

(** X14. The detector returns nothing but what a flagged job gives: every
    path of the set is a candidate whose content meets the criterion of the
    pattern, or the directory [/Library/Application Support/<name>] for the
    name such a candidate has in front of the path of the binary, a name
    without newline. *)
Theorem detector_returns_flagged_jobs (w : world) (σ σ' : state) (found : gset string) :
  iteration_ok w →
  get_projectX_files w σ = (σ', Ok found) →
  ∀ path, path ∈ found →
    ∃ candidate launchd_job pre name dot post,
      candidate ∈ projectx_candidates w
      ∧ read_text w σ candidate = Some launchd_job
      ∧ launchd_job = pre +:+ binary_below name dot +:+ post
      ∧ Py.contains nl name = false ∧ dot ≠ Py.newline
      ∧ (path = candidate ∨ path = "/Library/Application Support/" +:+ name).
Proof.
  intros Hw Hrun path Hpath. unfold get_projectX_files in Hrun.
  apply scan_returns in Hrun as ->.
  apply elem_of_union in Hpath as [Hpath|Hpath]; [by apply elem_of_empty in Hpath|].
  apply elem_of_union_list in Hpath as (X & HX & Hpath).
  apply list_elem_of_fmap in HX as (candidate & -> & Hcandidate).
  apply (iteration_elem_of w) in Hcandidate; [|done].
  unfold contribution in Hpath.
  destruct (read_text w σ candidate) as [launchd_job|] eqn:Hread;
    [|by apply elem_of_empty in Hpath].
  change (Some launchd_job ≫= Re.search agent_regex)
    with (Re.search agent_regex launchd_job) in Hpath.
  destruct (Re.search agent_regex launchd_job) as [m|] eqn:Hm;
    [|by apply elem_of_empty in Hpath].
  unfold Re.search in Hm. apply search_from_sound in Hm as (p & q & Hsplit & Hm).
  apply agent_regex_sound in Hm as (u & g & x & rest & -> & _ & Hg & Hx & Hgroup & _).
  apply agent_suffix_accepts in Hx as (dot & Hdot & ->).
  exists candidate, launchd_job, (string_of_list_ascii (p ++ u)),
    (string_of_list_ascii g), dot, (string_of_list_ascii rest).
  split_and!; [done|done| | |done|].
  - apply list_ascii_inj.
    rewrite !list_ascii_app, binary_below_list, !list_ascii_of_string_of_list_ascii,
      Hsplit, <- !(assoc_L (++)).
    done.
  - apply contains_char. rewrite list_ascii_of_string_of_list_ascii.
    by apply accepted_any.
  - unfold Re.group_1 in Hpath. rewrite Hgroup in Hpath.
    apply elem_of_union in Hpath as [Hpath|Hpath]; apply elem_of_singleton in Hpath;
      [by left|by right].
Qed.

Lemma detector_returns_flagged_jobs_witness :
  ∃ candidate launchd_job pre name dot post,
    candidate ∈ projectx_candidates agent_world
    ∧ read_text agent_world (state_of {[ foobar_plist := File job_plain ]}) candidate
      = Some launchd_job
    ∧ launchd_job = pre +:+ binary_below name dot +:+ post
    ∧ Py.contains nl name = false ∧ dot ≠ Py.newline
    ∧ (foobar_directory = candidate
       ∨ foobar_directory = "/Library/Application Support/" +:+ name).
Proof.
  apply (detector_returns_flagged_jobs agent_world
           (state_of {[ foobar_plist := File job_plain ]})
           (state_of {[ foobar_plist := File job_plain ]})
           {[ foobar_plist; foobar_directory ]}).
  - by apply iteration_elements_ok.
  - vm_compute. reflexivity.
  - apply elem_of_union. right. by apply elem_of_singleton.
Defined.

(** *** The whole run *)

(** X15. A first run by a user who may not make the cache directory ends
    while the module is loaded, with the [OSError] of [os.mkdir]: [main] is
    not entered, nothing is fetched, logged or printed, and the exit status
    is that of a traceback, not the 13 of the fetcher's own message. *)
Theorem script_without_cache_directory (w : world) (args : arguments) (σ : state)
    (errno : Z) :
  fs σ !! CACHE = None →
  refused w (Mkdir CACHE) = Some errno →
  script w args σ = (σ, Raise (OSError errno CACHE))
  ∧ exit_status (script w args σ).2 = 1%Z.
Proof.
  intros Hnone Hrefused.
  assert (Hrun : script w args σ = (σ, Raise (OSError errno CACHE))).
  { unfold script, bind at 1, create_cache, bind at 1, get_state.
    assert (Os.path_exists σ CACHE = false) as Hexists.
    { unfold Os.path_exists. rewrite Hnone. apply bool_decide_eq_false.
      by intros [? ?]. }
    rewrite Hexists. cbn [negb]. unfold Os.mkdir. by rewrite Hexists, Hrefused. }
  by rewrite Hrun.
Qed.

Lemma script_without_cache_directory_witness :
  script unprivileged_world no_arguments empty_state
  = (empty_state, Raise (OSError 13 CACHE)).
Proof.
  apply (script_without_cache_directory unprivileged_world no_arguments empty_state 13);
    reflexivity.
Defined.



